(** * founder-llm: the chat streaming client, the admin file route and the
      database schema, embedded in Rocq.

    Sources embedded here:
    - [frontend/lib/api.ts]                    ([streamChatMessage])
    - [components/chat/ChatInterface.tsx]      ([handleSend])
    - [components/files/FileList.tsx], [components/files/FileUpload.tsx],
      [app/chat/page.tsx]                      (the selected-files state)
    - [frontend/app/api/admin/files/route.ts]  ([GET])
    - [backend/supabase.sql]                   (tables, foreign keys, RLS)

    The Python relay behind [POST /v1/chats/{id}/message] is not part of the
    sources; module [Relay] models it from the specification. *)

From Stdlib Require Import List NArith ZArith Bool String Ascii Lia Arith.
From Stdlib Require Import Strings.Byte DecimalString.
Import ListNotations.

Set Implicit Arguments.

(* ===================================================================== *)
(** * JavaScript strings and the string methods the sources call         *)
(* ===================================================================== *)

Module Js.

(** A JavaScript string is a sequence of UTF-16 code units. *)
Definition codeunit := N.
Definition jsstring := list codeunit.

(** A string literal of the sources (7-bit text). *)
Definition str (s : string) : jsstring :=
  map N_of_ascii (list_ascii_of_string s).

Definition streq (a b : jsstring) : bool :=
  if list_eq_dec N.eq_dec a b then true else false.

(** [!s] is true exactly for the empty string; [s] is truthy otherwise. *)
Definition is_empty (s : jsstring) : bool :=
  match s with [] => true | _ :: _ => false end.

Definition truthy (s : jsstring) : bool := negb (is_empty s).

(** ECMAScript WhiteSpace and LineTerminator code points, the characters
    [String.prototype.trim] strips. *)
Definition is_space (c : codeunit) : bool :=
  ((9 <=? c) && (c <=? 13) || (c =? 32) || (c =? 160) || (c =? 5760)
   || (8192 <=? c) && (c <=? 8202) || (c =? 8232) || (c =? 8233)
   || (c =? 8239) || (c =? 8287) || (c =? 12288) || (c =? 65279))%N.

Fixpoint trimStart (s : jsstring) : jsstring :=
  match s with
  | c :: s' => if is_space c then trimStart s' else s
  | [] => []
  end.

Definition trimEnd (s : jsstring) : jsstring := rev (trimStart (rev s)).

Definition trim (s : jsstring) : jsstring := trimEnd (trimStart s).

Fixpoint startsWith (s prefix : jsstring) : bool :=
  match prefix, s with
  | [], _ => true
  | p :: prefix', c :: s' => (c =? p)%N && startsWith s' prefix'
  | _ :: _, [] => false
  end.

(** [s.slice(n)] for a non-negative [n]. *)
Definition slice (n : nat) (s : jsstring) : jsstring := skipn n s.

(** [s.split(sep)] for a one-character separator: never the empty array. *)
Fixpoint split (sep : codeunit) (s : jsstring) : list jsstring :=
  match s with
  | [] => [[]]
  | c :: s' =>
      if (c =? sep)%N then [] :: split sep s'
      else match split sep s' with
           | l :: ls => (c :: l) :: ls
           | [] => [[c]]
           end
  end.

(** [a.pop()]: the last element ([undefined] on the empty array) and the
    array without it. *)
Definition pop {A} (a : list A) : option A * list A :=
  match rev a with
  | [] => (None, [])
  | x :: r => (Some x, rev r)
  end.

(** [v || d] where [v] is a string or [undefined]. *)
Definition or_else (v : option jsstring) (d : jsstring) : jsstring :=
  match v with
  | Some s => if truthy s then s else d
  | None => d
  end.

(** [s.replace(pat, by)] with a string pattern: the first occurrence only. *)
Fixpoint replace (pat by_ s : jsstring) : jsstring :=
  if startsWith s pat then by_ ++ skipn (List.length pat) s
  else match s with
       | [] => []
       | c :: s' => c :: replace pat by_ s'
       end.

Definition newline : codeunit := 10%N.

(** Errors raised in the sources. *)
Inductive JsError :=
| SyntaxError
| TypeError
| NetworkError
| Error (message : jsstring).

End Js.
Import Js.

(* ===================================================================== *)
(** * Generator bodies: yields and completions                           *)
(* ===================================================================== *)

Module Gen.

(** How a statement completes (ECMAScript completion records, without
    labelled [break]). *)
Inductive Completion (A : Type) :=
| Normal (a : A)
| Continue
| Return
| Throw (e : JsError).
Arguments Normal {A} a.
Arguments Continue {A}.
Arguments Return {A}.
Arguments Throw {A} e.

(** A run of a piece of generator body: the values yielded, in order, and
    how the piece completed. *)
Definition t (A : Type) : Type := (list jsstring * Completion A)%type.

Definition ret {A} (a : A) : t A := ([], Normal a).
Definition yield (v : jsstring) : t unit := ([v], Normal tt).
Definition throw {A} (e : JsError) : t A := ([], Throw e).
Definition continue {A} : t A := ([], Continue).
Definition return_ {A} : t A := ([], Return).

Definition bind {A B} (m : t A) (f : A -> t B) : t B :=
  match m with
  | (ys, Normal a) => let (ys', c) := f a in (ys ++ ys', c)
  | (ys, Continue) => (ys, Continue)
  | (ys, Return) => (ys, Return)
  | (ys, Throw e) => (ys, Throw e)
  end.

(** [try { m } catch (e) { h e }] *)
Definition try_catch {A} (m : t A) (h : JsError -> t A) : t A :=
  match m with
  | (ys, Throw e) => let (ys', c) := h e in (ys ++ ys', c)
  | _ => m
  end.

(** [for (const x of xs) { body x }]: [continue] moves on to the next
    element, [return] and [throw] leave the loop. *)
Fixpoint for_of {A} (xs : list A) (body : A -> t unit) : t unit :=
  match xs with
  | [] => ret tt
  | x :: xs' =>
      match body x with
      | (ys, Normal _) | (ys, Continue) =>
          let (ys', c) := for_of xs' body in (ys ++ ys', c)
      | (ys, Return) => (ys, Return)
      | (ys, Throw e) => (ys, Throw e)
      end
  end.

Definition when (b : bool) (m : t unit) : t unit := if b then m else ret tt.

End Gen.

Declare Scope gen_scope.
Delimit Scope gen_scope with gen.
Notation "x <- m ;; k" := (Gen.bind m (fun x => k))
  (at level 61, m at next level, right associativity) : gen_scope.
Notation "m ;; k" := (Gen.bind m (fun _ => k))
  (at level 61, right associativity) : gen_scope.

(* ===================================================================== *)
(** * What the platform provides: [TextDecoder] and [JSON.parse]          *)
(* ===================================================================== *)

(** The value [JSON.parse] returns, as far as [streamChatMessage] looks at
    it: whether it is [null], and its [content] and [error] properties.  The
    wire format is [{content: string}] / [{error: string}] and the generator
    is declared [AsyncGenerator<string>]: the two properties, when present,
    hold strings.  (An object that holds a value of another type there is
    not represented; a number, a string, a boolean or an array has neither
    property.) *)
Inductive Parsed :=
| PNull
    (** [null]: reading a property of it throws a TypeError *)
| PValue (content error : option jsstring).
    (** any other value, with its [content] and [error] properties
        ([None] is [undefined]) *)

(** [TextDecoder] in streaming mode is a state machine over bytes: with
    [{stream: true}] its state is kept from one [decode] call to the next, and
    each byte adds zero or more code units to the output.  [JSON.parse] either
    returns a value or throws a SyntaxError. *)
Class Runtime := {
  DecoderState : Type;
  decoder_new : DecoderState;
  decode_byte : DecoderState -> byte -> DecoderState * jsstring;
  JSON_parse : jsstring -> option Parsed;
  JSON_parse_empty : JSON_parse [] = None
    (** [JSON.parse('')] throws: the empty text is not JSON *)
}.

(* ===================================================================== *)
(** * frontend/lib/api.ts: [streamChatMessage]                           *)
(* ===================================================================== *)

Module Api.

Import Gen.
Local Open Scope gen_scope.

(** The body of a response as its reader delivers it: the byte chunks the
    successive [read()] calls return, then either [done] or a failure. *)
Inductive ReadEnd := Closed | Errored (e : JsError).

Record Body := { chunks : list (list byte); ending : ReadEnd }.

(** How the loop is left when [read()] reports the end of the body. *)
Definition finish (fin : ReadEnd) : Completion unit :=
  match fin with
  | Closed => Normal tt
  | Errored e => Throw e
  end.

Record Response := { ok : bool; body : option Body }.

(** [await fetch(...)] either rejects or resolves to a response. *)
Inductive FetchResult := Rejected (e : JsError) | Resolved (r : Response).

(** A network that answers every request with the response [r]. *)
Definition answering {A} (r : Response) : A -> FetchResult :=
  fun _ => Resolved r.

(** A response with status ok whose body delivers [reads] and then ends
    with [fin]. *)
Definition streaming (reads : list (list byte)) (fin : ReadEnd) : Response :=
  {| ok := true; body := Some {| chunks := reads; ending := fin |} |}.

(** The request [streamChatMessage] posts. *)
Record Request := {
  req_chatId : jsstring;
  req_message : jsstring;
  req_user_id : jsstring;
  req_file_ids : list jsstring;
  req_stream : bool
}.

(** What a call of the generator, run to its end, has done. *)
Record Run := {
  yields : list jsstring;      (** values yielded, in order *)
  completion : Completion unit;
                               (** [Normal], [Return]: ended; [Throw]: threw *)
  reads : nat;                 (** [reader.read()] calls made *)
  released : bool              (** [reader.releaseLock()] ran *)
}.

Section WithRuntime.
Context {R : Runtime}.

(** [decoder.decode(value, { stream: true })] *)
Fixpoint decode (st : DecoderState) (value : list byte)
  : DecoderState * jsstring :=
  match value with
  | [] => (st, [])
  | b :: value' =>
      let (st1, out1) := decode_byte st b in
      let (st2, out2) := decode st1 value' in
      (st2, out1 ++ out2)
  end.

(** [parsed.content] and [parsed.error] *)
Definition get_content (p : Parsed) : Gen.t (option jsstring) :=
  match p with
  | PNull => throw TypeError
  | PValue c _ => ret c
  end.

Definition get_error (p : Parsed) : Gen.t (option jsstring) :=
  match p with
  | PNull => throw TypeError
  | PValue _ e => ret e
  end.

Definition parse (data : jsstring) : Gen.t Parsed :=
  match JSON_parse data with
  | Some p => ret p
  | None => throw SyntaxError
  end.

Definition is_truthy (v : option jsstring) : bool :=
  match v with Some s => truthy s | None => false end.

Definition value_of (v : option jsstring) : jsstring :=
  match v with Some s => s | None => [] end.

(** Lines 99-110: the inner [try { ... } catch (e) { }]. *)
Definition handle_data (data : jsstring) : Gen.t unit :=
  try_catch
    (parsed <- parse data ;;
     content <- get_content parsed ;;
     when (is_truthy content) (yield (value_of content)) ;;
     error <- get_error parsed ;;
     when (is_truthy error) (throw (Error (value_of error))))
    (fun _ => ret tt).

(** Lines 85-111: the body of [for (const line of lines)]. *)
Definition process_line (line : jsstring) : Gen.t unit :=
  let trimmedLine := trim line in
  if is_empty trimmedLine then continue
  else if startsWith trimmedLine (str "data: ") then
    let data := trim (slice 6 trimmedLine) in
    if streq data (str "[DONE]") then return_
    else if is_empty data then continue
    else handle_data data
  else ret tt.

(** Lines 74-113: [while (true)] over the reads still to come. The second
    component counts the [read()] calls. *)
Fixpoint read_loop (pending : list (list byte)) (fin : ReadEnd)
    (decoder : DecoderState) (buffer : jsstring) : Gen.t unit * nat :=
  match pending with
  | [] =>
      match fin with
      | Closed => (ret tt, 1)
      | Errored e => (throw e, 1)
      end
  | value :: pending' =>
      let (decoder', chunk) := decode decoder value in
      let buffer := buffer ++ chunk in
      let lines := split newline buffer in
      let (last, lines) := pop lines in
      let buffer := or_else last [] in
      match for_of lines process_line with
      | (ys, Normal _) | (ys, Continue) =>
          let '((ys', c), n) := read_loop pending' fin decoder' buffer in
          ((ys ++ ys', c), S n)
      | (ys, Return) => ((ys, Return), 1)
      | (ys, Throw e) => ((ys, Throw e), 1)
      end
  end.

Definition mkRequest (chatId message userId : jsstring)
    (fileIds : list jsstring) : Request :=
  {| req_chatId := chatId; req_message := message; req_user_id := userId;
     req_file_ids := fileIds; req_stream := true |}.

(** Lines 48-117. [fetch] is the network as the call finds it. *)
Definition streamChatMessage (fetch : Request -> FetchResult)
    (chatId message userId : jsstring) (fileIds : list jsstring) : Run :=
  match fetch (mkRequest chatId message userId fileIds) with
  | Rejected e =>
      {| yields := []; completion := Throw e; reads := 0; released := false |}
  | Resolved response =>
      if negb (ok response) then
        {| yields := [];
           completion := Throw (Error (str "Failed to send message"));
           reads := 0; released := false |}
      else
        match body response with
        | None =>
            {| yields := [];
               completion := Throw (Error (str "No response body"));
               reads := 0; released := false |}
        | Some b =>
            let '((ys, c), n) :=
              read_loop (chunks b) (ending b) decoder_new [] in
            {| yields := ys; completion := c; reads := n; released := true |}
        end
  end.

End WithRuntime.

End Api.

(* ===================================================================== *)
(** * The event stream as the specification describes it                 *)
(* ===================================================================== *)

(** Section 6 speaks of a sequence of frames; these definitions read a whole
    response text that way, for comparison with what [streamChatMessage]
    does read by read. *)
Module Sse.

Section WithRuntime.
Context {R : Runtime}.

(** The text of a byte stream. *)
Definition decode_all (bytes : list byte) : jsstring :=
  snd (Api.decode decoder_new bytes).

(** The newline-terminated lines of a text. *)
Definition complete_lines (text : jsstring) : list jsstring :=
  removelast (split newline text).

(** The payload of a [data: ] line. *)
Definition frame_of (line : jsstring) : option jsstring :=
  if startsWith (trim line) (str "data: ")
  then Some (trim (slice 6 (trim line)))
  else None.

Fixpoint frames_of_lines (lines : list jsstring) : list jsstring :=
  match lines with
  | [] => []
  | l :: lines' =>
      match frame_of l with
      | Some payload => payload :: frames_of_lines lines'
      | None => frames_of_lines lines'
      end
  end.

(** The frames of a response text, in order. *)
Definition frames (text : jsstring) : list jsstring :=
  frames_of_lines (complete_lines text).

Definition is_done (payload : jsstring) : bool :=
  streq payload (str "[DONE]").

(** The frames that precede the first [[DONE]] frame. *)
Fixpoint before_done (fs : list jsstring) : list jsstring :=
  match fs with
  | [] => []
  | f :: fs' => if is_done f then [] else f :: before_done fs'
  end.

Definition has_done (fs : list jsstring) : bool := existsb is_done fs.

(** The [content] field of a JSON frame that has one. *)
Definition content_field (payload : jsstring) : option jsstring :=
  match JSON_parse payload with
  | Some (PValue (Some c) _) => Some c
  | _ => None
  end.

(** The [error] field of a JSON frame that has one. *)
Definition error_field (payload : jsstring) : option jsstring :=
  match JSON_parse payload with
  | Some (PValue _ (Some e)) => Some e
  | _ => None
  end.

Fixpoint content_fields (fs : list jsstring) : list jsstring :=
  match fs with
  | [] => []
  | f :: fs' =>
      match content_field f with
      | Some c => c :: content_fields fs'
      | None => content_fields fs'
      end
  end.

(** What one JSON frame contributes: its content field, unless empty. *)
Definition content_of_frame (data : jsstring) : list jsstring :=
  match content_field data with
  | Some c => if truthy c then [c] else []
  | None => []
  end.

(** What the lines up to the first [[DONE]] frame contribute: the non-empty
    content fields of their JSON frames. *)
Definition lines_yields (lines : list jsstring) : list jsstring :=
  filter truthy (content_fields (before_done (frames_of_lines lines))).

End WithRuntime.

End Sse.

(* ===================================================================== *)
(** * components/chat/ChatInterface.tsx: [handleSend]                    *)
(* ===================================================================== *)

Module Chat.

Inductive Role := user | assistant | system.

Definition is_assistant (r : Role) : bool :=
  match r with assistant => true | _ => false end.

Record Message := {
  id : jsstring;
  role : Role;
  content : jsstring;
  timestamp : N
}.

(** The component state [handleSend] reads and writes. *)
Record State := {
  messages : list Message;
  input : jsstring;
  isStreaming : bool
}.

(** The props of the component. *)
Record Props := {
  chatId : jsstring;
  userId : jsstring;
  selectedFiles : list jsstring
}.

(** The clock readings of one call: [Date.now()] and [new Date()] for the
    user message, then for the assistant message. *)
Record Clock := {
  now_user : N; date_user : N;
  now_assistant : N; date_assistant : N
}.

(** [n.toString()] for a non-negative integer. *)
Definition toString (n : N) : jsstring :=
  str (DecimalString.NilZero.string_of_uint (N.to_uint n)).

Definition with_content (m : Message) (c : jsstring) : Message :=
  {| id := id m; role := role m; content := c; timestamp := timestamp m |}.

(** The updater passed to [setMessages] at lines 327-334 and 338-345: the
    last message gets the content [c] when it is an assistant message.
    ([handleSend] has appended a message before every use, so the list is
    never empty there; on an empty list the updater leaves it as it is.) *)
Definition set_last_content (c : jsstring) (prev : list Message)
  : list Message :=
  match pop prev with
  | (Some lastMessage, init) =>
      if is_assistant (role lastMessage)
      then init ++ [with_content lastMessage c]
      else prev
  | (None, _) => prev
  end.

Definition sorry : jsstring :=
  str "Sorry, there was an error processing your request.".

(** Lines 325-335: the [for await] loop; the state is [fullContent] and the
    message list. *)
Fixpoint consume (chunks : list jsstring) (fullContent : jsstring)
    (msgs : list Message) : jsstring * list Message :=
  match chunks with
  | [] => (fullContent, msgs)
  | chunk :: chunks' =>
      let fullContent := fullContent ++ chunk in
      consume chunks' fullContent (set_last_content fullContent msgs)
  end.

Section WithRuntime.
Context {R : Runtime}.

(** Lines 300-349. The result is the new state and the run of
    [streamChatMessage], if it was called. *)
Definition handleSend (fetch : Api.Request -> Api.FetchResult)
    (props : Props) (clock : Clock) (st : State)
  : State * option Api.Run :=
  if is_empty (trim (input st)) || isStreaming st then (st, None)
  else
    let userMessage :=
      {| id := toString (now_user clock); role := user;
         content := input st; timestamp := date_user clock |} in
    let msgs := messages st ++ [userMessage] in
    let assistantMessage :=
      {| id := toString (now_assistant clock + 1); role := assistant;
         content := []; timestamp := date_assistant clock |} in
    let msgs := msgs ++ [assistantMessage] in
    let run :=
      Api.streamChatMessage fetch (chatId props) (input st) (userId props)
        (selectedFiles props) in
    let (_, msgs) := consume (Api.yields run) [] msgs in
    let msgs :=
      match Api.completion run with
      | Gen.Throw _ => set_last_content sorry msgs
      | _ => msgs
      end in
    ({| messages := msgs; input := []; isStreaming := false |}, Some run).

End WithRuntime.

End Chat.

(* ===================================================================== *)
(** * The selected-files state: app/chat/page.tsx, FileList, FileUpload  *)
(* ===================================================================== *)

Module Selection.

(** [FileUpload] of frontend/lib/api.ts. *)
Record FileUpload := {
  id : jsstring;
  filename : jsstring;
  file_path : jsstring;
  status : jsstring;
  created_at : jsstring
}.

(** What [ingestFile] resolves to. *)
Record IngestResult := {
  file_id : jsstring;
  ingest_status : jsstring;
  message : jsstring
}.

Definition completed (f : FileUpload) : bool :=
  streq (status f) (str "completed").

Definition includes (l : list jsstring) (x : jsstring) : bool :=
  existsb (streq x) l.

(** page.tsx, [handleFileSelect]: toggle membership. *)
Definition handleFileSelect (fileId : jsstring) (prev : list jsstring)
  : list jsstring :=
  if includes prev fileId
  then filter (fun id => negb (streq id fileId)) prev
  else prev ++ [fileId].

(** page.tsx, [loadChatFiles], once [getUserFiles] has resolved. *)
Definition loadChatFiles (files : list FileUpload) : list jsstring :=
  map id (filter completed files).

(** Everything that writes [selectedFiles]. *)
Inductive Event :=
| ChatFilesLoaded (files : list FileUpload)
    (** [loadChatFiles]: [getUserFiles] resolved *)
| ChatFilesFailed
    (** [loadChatFiles]: [getUserFiles] rejected, the error is logged *)
| NoCurrentChat
    (** the effect on [currentChatId]: no chat is open *)
| NewChat
    (** [handleNewChat] *)
| CurrentChatDeleted
    (** [handleDeleteChat] on the open chat *)
| FileListClick (file : FileUpload)
    (** FileList: [onClick] on the row of [file] *)
| FileUploaded (fileId : jsstring) (ingest : IngestResult).
    (** FileUpload: upload and [ingestFile] succeeded; ChatInterface's
        [onFileUploaded] handler calls [onFileSelect(fileId)] *)

Definition step (e : Event) (selectedFiles : list jsstring)
  : list jsstring :=
  match e with
  | ChatFilesLoaded files => loadChatFiles files
  | ChatFilesFailed => selectedFiles
  | NoCurrentChat | NewChat | CurrentChatDeleted => []
  | FileListClick file =>
      if completed file then handleFileSelect (id file) selectedFiles
      else selectedFiles
  | FileUploaded fileId _ => handleFileSelect fileId selectedFiles
  end.

Definition run (es : list Event) (selectedFiles : list jsstring)
  : list jsstring :=
  fold_left (fun s e => step e s) es selectedFiles.

(** [ingestFile] reported the file as completed. *)
Definition ingest_completed (r : IngestResult) : bool :=
  streq (ingest_status r) (str "completed").

(** The completed files an event shows to the client: those of the list
    [getUserFiles] returned, the one of the row clicked, and the uploaded
    file when [ingestFile] reported it as completed. *)
Definition shown_completed (e : Event) : list jsstring :=
  match e with
  | ChatFilesLoaded files => map id (filter completed files)
  | FileListClick file => if completed file then [id file] else []
  | FileUploaded fileId ingest =>
      if ingest_completed ingest then [fileId] else []
  | _ => []
  end.

(** The uploaded file when [ingestFile] reported any other status for it:
    nothing between the answer and [onFileSelect] looks at the status. *)
Definition unchecked_upload (e : Event) : list jsstring :=
  match e with
  | FileUploaded fileId ingest =>
      if ingest_completed ingest then [] else [fileId]
  | _ => []
  end.

End Selection.

(* ===================================================================== *)
(** * The streaming relay behind [POST /v1/chats/{id}/message]           *)
(* ===================================================================== *)

(** The backend handler is not among the sources: this module is written
    from sections 3, 4.1, 6 and 7 of the specification. *)
Module Relay.

Definition text := jsstring.

Inductive Role := user | assistant | system.

Inductive Status := pending | processing | completed | failed.

Definition is_completed (s : Status) : bool :=
  match s with completed => true | _ => false end.

Record Chat := { chat_id : text; chat_owner : text; chat_title : text }.

Record Message := {
  msg_chat : text;
  msg_role : Role;
  msg_content : text;
  msg_created_at : N;
  msg_partial : bool
}.

Record File := {
  file_id : text;
  file_chat : option text;
  file_owner : text;
  file_name : text;
  file_status : Status
}.

Record FileChunk := {
  chunk_file : text;
  chunk_index : N;
  chunk_content : text;
  chunk_page : option N
}.

(** Modelled from the spec: the relational store of section 3 (chats,
    messages, files and chunks), which the absent backend reads and writes. *)
Record Store := {
  chats : list Chat;
  messages : list Message;
  files : list File;
  file_chunks : list FileChunk
}.

Inductive ErrorKind :=
| InvalidArgument | NotFound | UpstreamUnavailable | UpstreamInterrupted.

(** The three kinds of SSE frame. *)
Inductive Frame :=
| ContentFrame (content : text)
| ErrorFrame (error : text)
| Done.

Inductive Reply :=
| Failure (e : ErrorKind)          (** upfront failure, no stream opened *)
| Stream (frames : list Frame).    (** the event stream, in emission order *)

Record Excerpt := { excerpt_label : text; excerpt_text : text }.

Record Prompt := {
  prompt_system : text;
  prompt_excerpts : list Excerpt;
  prompt_history : list Message;
  prompt_user : text
}.

(** [stream_completion]: the fragments the provider delivers, then
    possibly a failure. *)
Definition Provider := Prompt -> list text * option text.

Record Config := { system_instruction : text; history_cap : nat }.

Definition owns_chat (s : Store) (chat user_id : text) : bool :=
  existsb (fun c => streq (chat_id c) chat && streq (chat_owner c) user_id)
          (chats s).

(** [append_message(chat_id, role, content)] *)
Definition append_message (s : Store) (m : Message) : Store :=
  {| chats := chats s; messages := messages s ++ [m];
     files := files s; file_chunks := file_chunks s |}.

(** [list_messages(chat_id)], oldest first. *)
Definition list_messages (s : Store) (chat : text) : list Message :=
  filter (fun m => streq (msg_chat m) chat) (messages s).

(** The most recent [n] elements, in order. *)
Definition keep_last {A} (n : nat) (l : list A) : list A :=
  skipn (List.length l - n) l.

(** Modelled from the spec: the file check of the absent relay (section
    4.1): the completed file of [user_id] with identifier [fid], if any. *)
Definition valid_file (s : Store) (user_id fid : text) : option File :=
  find (fun f => streq (file_id f) fid && streq (file_owner f) user_id
                 && is_completed (file_status f))
       (files s).

Fixpoint insert_chunk (c : FileChunk) (l : list FileChunk) : list FileChunk :=
  match l with
  | [] => [c]
  | d :: l' =>
      if (chunk_index c <=? chunk_index d)%N then c :: l
      else d :: insert_chunk c l'
  end.

(** [list_chunks(file_id)], ordered by sequence index. *)
Definition list_chunks (s : Store) (fid : text) : list FileChunk :=
  fold_right insert_chunk []
    (filter (fun c => streq (chunk_file c) fid) (file_chunks s)).

Definition excerpt_of (s : Store) (f : File) : Excerpt :=
  {| excerpt_label := file_name f;
     excerpt_text :=
       List.concat (map chunk_content (list_chunks s (file_id f))) |}.

(** Modelled from the spec: step 3 of the absent relay's algorithm: one
    labelled block per valid file identifier, in the order supplied; any
    other identifier is dropped. *)
Fixpoint excerpts (s : Store) (user_id : text) (file_ids : list text)
  : list Excerpt :=
  match file_ids with
  | [] => []
  | fid :: rest =>
      match valid_file s user_id fid with
      | Some f => excerpt_of s f :: excerpts s user_id rest
      | None => excerpts s user_id rest
      end
  end.

Definition opt_frame (failure : option text) : list Frame :=
  match failure with Some e => [ErrorFrame e] | None => [] end.

Definition is_some {A} (o : option A) : bool :=
  match o with Some _ => true | None => false end.

(** Modelled from the spec: the relay's [send-message] operation (the backend
    handler of [POST /v1/chats/{chat_id}/message] is not among the sources).
    Section 4.1: the message must be non-empty after trimming
    ([InvalidArgument]) and the chat must be owned by the user ([NotFound]);
    the user message is persisted before the provider is contacted; the
    prompt is the system instruction, the excerpt blocks of the valid files,
    the capped history and the new message; each fragment is forwarded as a
    [{content}] frame, a provider error as an [{error}] frame, and [[DONE]]
    ends the stream; the concatenated output is persisted as one assistant
    message.  A provider failure before any fragment is an upfront
    [UpstreamUnavailable] with no frames and no assistant message
    (sections 7 and 8).  The specification does not order the two input
    checks; the argument check comes first here. *)
Definition send_message (cfg : Config) (provider : Provider) (now : N)
    (s : Store) (chat user_id message_text : text) (file_ids : list text)
  : Reply * Store :=
  if is_empty (trim message_text) then (Failure InvalidArgument, s)
  else if negb (owns_chat s chat user_id) then (Failure NotFound, s)
  else
    let history := keep_last (history_cap cfg) (list_messages s chat) in
    let s1 :=
      append_message s
        {| msg_chat := chat; msg_role := user; msg_content := message_text;
           msg_created_at := now; msg_partial := false |} in
    let prompt :=
      {| prompt_system := system_instruction cfg;
         prompt_excerpts := excerpts s user_id file_ids;
         prompt_history := history;
         prompt_user := message_text |} in
    match provider prompt with
    | ([], Some _) => (Failure UpstreamUnavailable, s1)
    | (fragments, failure) =>
        let frames :=
          map ContentFrame fragments ++ opt_frame failure ++ [Done] in
        let s2 :=
          append_message s1
            {| msg_chat := chat; msg_role := assistant;
               msg_content := List.concat fragments;
               msg_created_at := now; msg_partial := is_some failure |} in
        (Stream frames, s2)
    end.

(** Modelled from the spec: the grammar of the absent relay's response
    (section 6): content frames, at most one error frame, then [[DONE]]. *)
Definition well_formed (frames : list Frame) : Prop :=
  exists (contents : list text) (failure : option text),
    frames = map ContentFrame contents ++ opt_frame failure ++ [Done].

End Relay.

(* ===================================================================== *)
(** * frontend/app/api/admin/files/route.ts: [GET]                       *)
(* ===================================================================== *)

Module AdminFiles.

(** An awaited call resolves to a value or rejects. *)
Inductive Await (A : Type) := Resolves (a : A) | Rejects (e : JsError).
Arguments Resolves {A} a.
Arguments Rejects {A} e.

Record User := { user_id : jsstring }.

(** [{ data: { user }, error }] of [supabase.auth.getUser(token)]. *)
Record GetUserResult := {
  user : option User;
  authError : option jsstring
}.

(** A row of [profiles] restricted to [role] (a nullable column). *)
Record Profile := { role : option jsstring }.

(** A row of [user_files] with the joined profile name. *)
Record FileRow := {
  file_row_id : jsstring;
  file_row_user_id : jsstring;
  file_row_full_name : option jsstring
}.

(** [{ data: files, error }] of the [user_files] query. *)
Record FilesResult := {
  files : option (list FileRow);
  error : option jsstring
}.

(** The calls the route makes on the Supabase client. *)
Record Supabase := {
  auth_getUser : jsstring -> Await GetUserResult;
  select_profile_role : jsstring -> Await (option Profile);
  select_user_files : Await FilesResult
}.

Record NextRequest := { authorization : option jsstring }.

Inductive Json :=
| ErrorJson (error : jsstring)
| FilesJson (files : list FileRow).

Record NextResponse := { status : N; json : Json }.

Definition error_response (msg : string) (code : N) : NextResponse :=
  {| status := code; json := ErrorJson (str msg) |}.

(** [profile?.role !== 'admin'] *)
Definition role_is_not_admin (profile : option Profile) : bool :=
  match profile with
  | Some p =>
      match role p with
      | Some r => negb (streq r (str "admin"))
      | None => true
      end
  | None => true
  end.

Definition or_nil {A} (v : option (list A)) : list A :=
  match v with Some l => l | None => [] end.

(** Lines 4-57. A rejected call lands in the [catch] at line 50. *)
Definition GET (supabase : Supabase) (request : NextRequest) : NextResponse :=
  match authorization request with
  | None => error_response "Unauthorized" 401
  | Some authHeader =>
      if is_empty authHeader then error_response "Unauthorized" 401
      else
        match auth_getUser supabase (replace (str "Bearer ") [] authHeader) with
        | Rejects _ => error_response "Internal server error" 500
        | Resolves r =>
            match authError r, user r with
            | Some _, _ | None, None => error_response "Unauthorized" 401
            | None, Some u =>
                match select_profile_role supabase (user_id u) with
                | Rejects _ => error_response "Internal server error" 500
                | Resolves profile =>
                    if role_is_not_admin profile
                    then error_response "Forbidden - Admin only" 403
                    else
                      match select_user_files supabase with
                      | Rejects _ =>
                          error_response "Internal server error" 500
                      | Resolves fr =>
                          match error fr with
                          | Some _ =>
                              error_response "Failed to fetch files" 500
                          | None =>
                              {| status := 200;
                                 json := FilesJson (or_nil (files fr)) |}
                          end
                      end
                end
            end
        end
  end.

(** The requester is a verified admin: the header is present, [getUser]
    resolves to a user without error, and that user's profile has role
    ['admin']. *)
Definition verified_admin (supabase : Supabase) (request : NextRequest)
  : Prop :=
  exists authHeader u p,
    authorization request = Some authHeader /\
    authHeader <> [] /\
    auth_getUser supabase (replace (str "Bearer ") [] authHeader)
      = Resolves {| user := Some u; authError := None |} /\
    select_profile_role supabase (user_id u) = Resolves (Some p) /\
    role p = Some (str "admin").

End AdminFiles.

(* ===================================================================== *)
(** * backend/supabase.sql: tables, foreign keys, row level security     *)
(* ===================================================================== *)

Module Db.

Local Open Scope string_scope.

Definition uuid := N.

Inductive Table := t_profiles | t_chats | t_messages | t_files | t_file_chunks.
Inductive Command := SELECT | INSERT | UPDATE | DELETE.
Inductive ReferentialAction := NoAction | Cascade.

Definition table_eq_dec (a b : Table) : {a = b} + {a <> b}.
Proof. decide equality. Defined.

Definition command_eq_dec (a b : Command) : {a = b} + {a <> b}.
Proof. decide equality. Defined.

(** ** Rows.  A [NOT NULL] column has its type, a nullable one an option;
    the timestamp and [metadata] columns, which no constraint or policy
    mentions, are left out. *)

Record chats_row := {
  chats_id : uuid;
  chats_user_id : uuid;
  chats_title : option string
}.

Record messages_row := {
  messages_id : uuid;
  messages_chat_id : uuid;
  messages_role : string;
  messages_content : string
}.

Record files_row := {
  files_id : uuid;
  files_chat_id : option uuid;
  files_user_id : uuid;
  files_filename : string;
  files_file_path : string;
  files_status : option string
}.

Record file_chunks_row := {
  file_chunks_id : uuid;
  file_chunks_file_id : uuid;
  file_chunks_chunk_index : Z;
  file_chunks_content : string;
  file_chunks_page_number : option Z
}.

Record Database := {
  chats : list chats_row;
  messages : list messages_row;
  files : list files_row;
  file_chunks : list file_chunks_row
}.

Definition empty : Database :=
  {| chats := []; messages := []; files := []; file_chunks := [] |}.

(** ** Foreign keys (lines 30, 40 and 54). *)

Record ForeignKey := {
  fk_table : Table;
  fk_column : string;
  fk_references : Table;
  fk_not_null : bool;
  fk_on_delete : ReferentialAction
}.

Definition messages_chat_id_fkey : ForeignKey :=
  {| fk_table := t_messages; fk_column := "chat_id"; fk_references := t_chats;
     fk_not_null := true; fk_on_delete := Cascade |}.

Definition files_chat_id_fkey : ForeignKey :=
  {| fk_table := t_files; fk_column := "chat_id"; fk_references := t_chats;
     fk_not_null := false; fk_on_delete := Cascade |}.

Definition file_chunks_file_id_fkey : ForeignKey :=
  {| fk_table := t_file_chunks; fk_column := "file_id";
     fk_references := t_files; fk_not_null := true;
     fk_on_delete := Cascade |}.

(** ** Row level security (lines 72-156). *)

Inductive PolicyExpr :=
| OwnRow
    (** [auth.uid() = user_id] *)
| ChatOwned
    (** [EXISTS (SELECT 1 FROM chats WHERE chats.id = messages.chat_id
         AND chats.user_id = auth.uid())] *)
| FileOwned.
    (** [EXISTS (SELECT 1 FROM files WHERE files.id = file_chunks.file_id
         AND files.user_id = auth.uid())] *)

Record Policy := {
  policy_name : string;
  policy_table : Table;
  policy_command : Command;
  policy_expr : PolicyExpr
}.

Definition policy (name : string) (t : Table) (c : Command) (e : PolicyExpr)
  : Policy :=
  {| policy_name := name; policy_table := t; policy_command := c;
     policy_expr := e |}.

Definition policies : list Policy :=
  [ policy "Users can view own profile" t_profiles SELECT OwnRow;
    policy "Users can insert own profile" t_profiles INSERT OwnRow;
    policy "Users can update own profile" t_profiles UPDATE OwnRow;
    policy "Users can view own chats" t_chats SELECT OwnRow;
    policy "Users can insert own chats" t_chats INSERT OwnRow;
    policy "Users can update own chats" t_chats UPDATE OwnRow;
    policy "Users can view own messages" t_messages SELECT ChatOwned;
    policy "Users can insert messages in own chats" t_messages INSERT ChatOwned;
    policy "Users can view own files" t_files SELECT OwnRow;
    policy "Users can insert own files" t_files INSERT OwnRow;
    policy "Users can update own files" t_files UPDATE OwnRow;
    policy "Users can delete own files" t_files DELETE OwnRow;
    policy "Users can view own file chunks" t_file_chunks SELECT FileOwned;
    policy "Users can insert chunks for own files" t_file_chunks INSERT
      FileOwned;
    policy "Users can delete own file chunks" t_file_chunks DELETE FileOwned ].

Definition row_level_security : list Table :=
  [t_profiles; t_chats; t_messages; t_files; t_file_chunks].

(** The commands a table has policies for. *)
Definition policies_on (t : Table) : list Command :=
  map policy_command
    (filter (fun p => if table_eq_dec (policy_table p) t then true else false)
       policies).

(** Who runs a statement: a signed-in client, an anonymous client, or the
    backend's service role, which bypasses row level security. *)
Inductive Session := Authenticated (uid : uuid) | Anonymous | ServiceRole.

(** [auth.uid()] *)
Definition auth_uid (who : Session) : option uuid :=
  match who with Authenticated uid => Some uid | _ => None end.

Definition bypasses_rls (who : Session) : bool :=
  match who with ServiceRole => true | _ => false end.

(** The columns of a row that policy expressions read. *)
Record RowView := {
  row_user_id : option uuid;
  row_chat_id : option uuid;
  row_file_id : option uuid
}.

Definition view_chat (r : chats_row) : RowView :=
  {| row_user_id := Some (chats_user_id r); row_chat_id := None;
     row_file_id := None |}.
Definition view_message (r : messages_row) : RowView :=
  {| row_user_id := None; row_chat_id := Some (messages_chat_id r);
     row_file_id := None |}.
Definition view_file (r : files_row) : RowView :=
  {| row_user_id := Some (files_user_id r); row_chat_id := files_chat_id r;
     row_file_id := None |}.
Definition view_chunk (r : file_chunks_row) : RowView :=
  {| row_user_id := None; row_chat_id := None;
     row_file_id := Some (file_chunks_file_id r) |}.

Definition opt_eqb (a b : option uuid) : bool :=
  match a, b with
  | Some x, Some y => (x =? y)%N
  | _, _ => false       (** a comparison with NULL is not true *)
  end.

Definition eval_expr (db : Database) (uid : option uuid) (e : PolicyExpr)
    (r : RowView) : bool :=
  match e with
  | OwnRow => opt_eqb uid (row_user_id r)
  | ChatOwned =>
      existsb (fun c => opt_eqb (Some (chats_id c)) (row_chat_id r)
                        && opt_eqb (Some (chats_user_id c)) uid)
              (chats db)
  | FileOwned =>
      existsb (fun f => opt_eqb (Some (files_id f)) (row_file_id r)
                        && opt_eqb (Some (files_user_id f)) uid)
              (files db)
  end.

Definition applies (t : Table) (c : Command) (p : Policy) : bool :=
  (if table_eq_dec (policy_table p) t then true else false)
  && (if command_eq_dec (policy_command p) c then true else false).

(** A command on a row passes when the session bypasses row level security,
    the table has none, or some policy of the table for that command
    accepts the row; with no such policy the row is refused. *)
Definition permits (db : Database) (who : Session) (t : Table) (c : Command)
    (r : RowView) : bool :=
  bypasses_rls who
  || negb (if in_dec table_eq_dec t row_level_security then true else false)
  || existsb (fun p => applies t c p
                       && eval_expr db (auth_uid who) (policy_expr p) r)
             policies.

(** ** Constraints. *)

Definition mem (x : uuid) (l : list uuid) : bool := existsb (N.eqb x) l.

Fixpoint unique (l : list uuid) : bool :=
  match l with
  | [] => true
  | x :: l' => negb (mem x l') && unique l'
  end.

Definition one_of (v : string) (allowed : list string) : bool :=
  existsb (String.eqb v) allowed.

(** [CHECK (role IN ('user', 'assistant', 'system'))] *)
Definition messages_role_check (r : messages_row) : bool :=
  one_of (messages_role r) ["user"; "assistant"; "system"].

(** [CHECK (status IN (...))]; a NULL status passes the check. *)
Definition files_status_check (r : files_row) : bool :=
  match files_status r with
  | Some s => one_of s ["pending"; "processing"; "completed"; "failed"]
  | None => true
  end.

Definition chat_exists (db : Database) (id : uuid) : bool :=
  mem id (map chats_id (chats db)).

Definition file_exists (db : Database) (id : uuid) : bool :=
  mem id (map files_id (files db)).

Definition messages_fk_ok (db : Database) : bool :=
  forallb (fun m => chat_exists db (messages_chat_id m)) (messages db).

Definition files_fk_ok (db : Database) : bool :=
  forallb (fun f => match files_chat_id f with
                    | Some c => chat_exists db c
                    | None => true
                    end) (files db).

Definition file_chunks_fk_ok (db : Database) : bool :=
  forallb (fun c => file_exists db (file_chunks_file_id c)) (file_chunks db).

(** Primary keys, foreign keys and checks, as tested after an INSERT or an
    UPDATE. *)
Definition constraints_ok (db : Database) : bool :=
  unique (map chats_id (chats db))
  && unique (map messages_id (messages db))
  && unique (map files_id (files db))
  && unique (map file_chunks_id (file_chunks db))
  && messages_fk_ok db && files_fk_ok db && file_chunks_fk_ok db
  && forallb messages_role_check (messages db)
  && forallb files_status_check (files db).

(** ** Statements. *)

(** INSERT of one row; UPDATE and DELETE with a WHERE clause, UPDATE with
    the new value of each row it reaches. *)
Inductive Statement :=
| InsertChat (r : chats_row)
| UpdateChats (where_ : chats_row -> bool) (set : chats_row -> chats_row)
| DeleteChats (where_ : chats_row -> bool)
| InsertMessage (r : messages_row)
| UpdateMessages (where_ : messages_row -> bool)
    (set : messages_row -> messages_row)
| DeleteMessages (where_ : messages_row -> bool)
| InsertFile (r : files_row)
| UpdateFiles (where_ : files_row -> bool) (set : files_row -> files_row)
| DeleteFiles (where_ : files_row -> bool)
| InsertChunk (r : file_chunks_row)
| UpdateChunks (where_ : file_chunks_row -> bool)
    (set : file_chunks_row -> file_chunks_row)
| DeleteChunks (where_ : file_chunks_row -> bool).

Definition with_chats (db : Database) (l : list chats_row) : Database :=
  {| chats := l; messages := messages db; files := files db;
     file_chunks := file_chunks db |}.
Definition with_messages (db : Database) (l : list messages_row) : Database :=
  {| chats := chats db; messages := l; files := files db;
     file_chunks := file_chunks db |}.
Definition with_files (db : Database) (l : list files_row) : Database :=
  {| chats := chats db; messages := messages db; files := l;
     file_chunks := file_chunks db |}.
Definition with_file_chunks (db : Database) (l : list file_chunks_row)
  : Database :=
  {| chats := chats db; messages := messages db; files := files db;
     file_chunks := l |}.

(** A statement that leaves a constraint violated raises an error. *)
Definition checked (db : Database) : option Database :=
  if constraints_ok db then Some db else None.

Definition update_rows {A} (target : A -> bool) (set : A -> A)
    (rows : list A) : list A :=
  map (fun r => if target r then set r else r) rows.

(** The rows an UPDATE reaches must pass the policy again with their new
    value (the USING expression doubles as WITH CHECK). *)
Definition update_checked {A} (target : A -> bool) (set : A -> A)
    (pass : A -> bool) (rows : list A) : bool :=
  forallb (fun r => negb (target r) || pass (set r)) rows.

(** What a foreign key does to the rows that refer to deleted rows. *)
Definition referential_delete {A} (fk : ForeignKey) (refers : A -> bool)
    (rows : list A) : option (list A) :=
  match fk_on_delete fk with
  | Cascade => Some (filter (fun r => negb (refers r)) rows)
  | NoAction => if existsb refers rows then None else Some rows
  end.

(** Delete the files [doomed] selects, with the referential action of
    [file_chunks.file_id]. *)
Definition delete_files (doomed : files_row -> bool) (db : Database)
  : option Database :=
  let gone := map files_id (filter doomed (files db)) in
  match referential_delete file_chunks_file_id_fkey
          (fun c => mem (file_chunks_file_id c) gone) (file_chunks db) with
  | Some chunks' =>
      Some {| chats := chats db; messages := messages db;
              files := filter (fun f => negb (doomed f)) (files db);
              file_chunks := chunks' |}
  | None => None
  end.

Definition refers_to_chat (gone : list uuid) (f : files_row) : bool :=
  match files_chat_id f with
  | Some c => mem c gone
  | None => false
  end.

(** Delete the chats [doomed] selects, with the referential actions of
    [messages.chat_id] and [files.chat_id]; deleting a file in turn acts on
    its chunks. *)
Definition delete_chats (doomed : chats_row -> bool) (db : Database)
  : option Database :=
  let gone := map chats_id (filter doomed (chats db)) in
  let chats' := filter (fun c => negb (doomed c)) (chats db) in
  match referential_delete messages_chat_id_fkey
          (fun m => mem (messages_chat_id m) gone) (messages db) with
  | None => None
  | Some messages' =>
      match fk_on_delete files_chat_id_fkey with
      | Cascade =>
          match delete_files (refers_to_chat gone) db with
          | Some db1 =>
              Some {| chats := chats'; messages := messages';
                      files := files db1; file_chunks := file_chunks db1 |}
          | None => None
          end
      | NoAction =>
          if existsb (refers_to_chat gone) (files db) then None
          else Some {| chats := chats'; messages := messages';
                       files := files db; file_chunks := file_chunks db |}
      end
  end.

(** One statement run by [who]; [None] when it raises an error. *)
Definition exec (who : Session) (st : Statement) (db : Database)
  : option Database :=
  match st with
  | InsertChat r =>
      if permits db who t_chats INSERT (view_chat r)
      then checked (with_chats db (chats db ++ [r])) else None
  | UpdateChats w set =>
      let target r := w r && permits db who t_chats UPDATE (view_chat r) in
      let pass r := permits db who t_chats UPDATE (view_chat r) in
      if update_checked target set pass (chats db)
      then checked (with_chats db (update_rows target set (chats db)))
      else None
  | DeleteChats w =>
      delete_chats
        (fun r => w r && permits db who t_chats DELETE (view_chat r)) db
  | InsertMessage r =>
      if permits db who t_messages INSERT (view_message r)
      then checked (with_messages db (messages db ++ [r])) else None
  | UpdateMessages w set =>
      let target r :=
        w r && permits db who t_messages UPDATE (view_message r) in
      let pass r := permits db who t_messages UPDATE (view_message r) in
      if update_checked target set pass (messages db)
      then checked (with_messages db (update_rows target set (messages db)))
      else None
  | DeleteMessages w =>
      Some (with_messages db
              (filter (fun r => negb (w r && permits db who t_messages DELETE
                                                (view_message r)))
                      (messages db)))
  | InsertFile r =>
      if permits db who t_files INSERT (view_file r)
      then checked (with_files db (files db ++ [r])) else None
  | UpdateFiles w set =>
      let target r := w r && permits db who t_files UPDATE (view_file r) in
      let pass r := permits db who t_files UPDATE (view_file r) in
      if update_checked target set pass (files db)
      then checked (with_files db (update_rows target set (files db)))
      else None
  | DeleteFiles w =>
      delete_files
        (fun r => w r && permits db who t_files DELETE (view_file r)) db
  | InsertChunk r =>
      if permits db who t_file_chunks INSERT (view_chunk r)
      then checked (with_file_chunks db (file_chunks db ++ [r])) else None
  | UpdateChunks w set =>
      let target r :=
        w r && permits db who t_file_chunks UPDATE (view_chunk r) in
      let pass r := permits db who t_file_chunks UPDATE (view_chunk r) in
      if update_checked target set pass (file_chunks db)
      then checked
             (with_file_chunks db (update_rows target set (file_chunks db)))
      else None
  | DeleteChunks w =>
      Some (with_file_chunks db
              (filter (fun r => negb (w r && permits db who t_file_chunks
                                                DELETE (view_chunk r)))
                      (file_chunks db)))
  end.

(** The database after the statement: unchanged when it raised an error. *)
Definition apply (who : Session) (st : Statement) (db : Database)
  : Database :=
  match exec who st db with
  | Some db' => db'
  | None => db
  end.

Definition run (script : list (Session * Statement)) (db : Database)
  : Database :=
  fold_left (fun d p => apply (fst p) (snd p) d) script db.

(** Every chunk has its parent file. *)
Definition chunks_have_files (db : Database) : Prop :=
  forall c, In c (file_chunks db) ->
    exists f, In f (files db) /\ files_id f = file_chunks_file_id c.

End Db.

(* ===================================================================== *)
(** * A concrete runtime for worked examples                             *)
(* ===================================================================== *)

(** On 7-bit input the UTF-8 decoder is the identity; [JSON_parse_flat] is
    [JSON.parse] on the texts [null] and [{"k":"v",...}] (string fields
    without escapes, no white space) and rejects every other text.  The
    examples below use 7-bit input and only such JSON texts or texts that
    are not JSON at all, where both agree with the browser. *)
Module Sample.

Definition decode_7bit (st : unit) (b : byte) : unit * jsstring :=
  let n := Byte.to_N b in
  (st, [if (n <? 128)%N then n else 65533%N]).

(** The characters of a string literal up to its closing quote, and what
    follows the quote. *)
Fixpoint read_string (s : jsstring) : option (jsstring * jsstring) :=
  match s with
  | [] => None
  | c :: s' =>
      if (c =? 34)%N then Some ([], s')
      else if ((c =? 92) || (c <? 32))%N then None
      else match read_string s' with
           | Some (v, rest) => Some (c :: v, rest)
           | None => None
           end
  end.

Definition set_field (key val : jsstring)
    (p : option jsstring * option jsstring)
  : option jsstring * option jsstring :=
  if streq key (str "content") then (Some val, snd p)
  else if streq key (str "error") then (fst p, Some val)
  else p.

Fixpoint read_fields (fuel : nat) (s : jsstring)
    (acc : option jsstring * option jsstring) : option Parsed :=
  match fuel with
  | O => None
  | S fuel' =>
      match s with
      | 34%N :: s1 =>
          match read_string s1 with
          | Some (key, 58%N :: 34%N :: s2) =>
              match read_string s2 with
              | Some (val, rest) =>
                  let acc' := set_field key val acc in
                  match rest with
                  | [125%N] => Some (PValue (fst acc') (snd acc'))
                  | 44%N :: rest' => read_fields fuel' rest' acc'
                  | _ => None
                  end
              | None => None
              end
          | _ => None
          end
      | _ => None
      end
  end.

Definition JSON_parse_flat (text : jsstring) : option Parsed :=
  if streq text (str "null") then Some PNull
  else if streq text (str "{}") then Some (PValue None None)
  else match text with
       | 123%N :: fields => read_fields (List.length text) fields (None, None)
       | _ => None
       end.

Definition runtime : Runtime :=
  {| DecoderState := unit; decoder_new := tt;
     decode_byte := decode_7bit; JSON_parse := JSON_parse_flat;
     JSON_parse_empty := eq_refl |}.

(** The bytes of a 7-bit text. *)
Definition bytes (s : string) : list byte := list_byte_of_string s.

Definition LF : string := String (ascii_of_nat 10) EmptyString.

(** JSON texts are built from their parts: [object1 k v] is the text of
    the object with the one string field [k] of value [v]. *)
Definition quote : string := String (ascii_of_nat 34) EmptyString.

Definition quoted (s : string) : string := quote ++ s ++ quote.

Definition object1 (k v : string) : string :=
  "{" ++ quoted k ++ ":" ++ quoted v ++ "}".

(** One event: a [data: ] line and the blank line that ends it. *)
Definition event (payload : string) : string :=
  "data: " ++ payload ++ LF ++ LF.

Definition error_payload : string := object1 "error" "upstream".

Definition error_line : string := "data: " ++ error_payload.

(** A response text of two content frames, an error frame and [[DONE]],
    and a frame to put after [[DONE]]. *)
Definition text1 : string :=
  event (object1 "content" "Hel") ++ event (object1 "content" "lo")
  ++ event error_payload ++ event "[DONE]".

Definition late_event : string := event (object1 "content" "late").

(** [text1] cut inside its first frame and inside its second. *)
Definition reads1 : list (list byte) :=
  [ bytes ("data: {" ++ quote ++ "co");
    bytes ("ntent" ++ quote ++ ":" ++ quoted "Hel" ++ "}" ++ LF ++ LF
           ++ "data: {" ++ quoted "content" ++ ":");
    bytes (quoted "lo" ++ "}" ++ LF ++ LF
           ++ event error_payload ++ event "[DONE]") ].

(** A stream whose only content frame carries the empty string. *)
Definition text_empty_content : string :=
  event (object1 "content" EmptyString) ++ event "[DONE]".

(** ** Sample inputs for the other modules. *)

Definition fetch1 : Api.Request -> Api.FetchResult :=
  Api.answering (Api.streaming reads1 Api.Closed).

Definition refused : Api.Response :=
  {| Api.ok := false;
     Api.body := Some {| Api.chunks := reads1; Api.ending := Api.Closed |} |}.

Definition fetch_refused : Api.Request -> Api.FetchResult :=
  Api.answering refused.

Definition props : Chat.Props :=
  {| Chat.chatId := str "c1"; Chat.userId := str "u1";
     Chat.selectedFiles := [str "f1"] |}.

Definition clock : Chat.Clock :=
  {| Chat.now_user := 1700000000000; Chat.date_user := 1700000000000;
     Chat.now_assistant := 1700000000001;
     Chat.date_assistant := 1700000000001 |}.

Definition state : Chat.State :=
  {| Chat.messages := []; Chat.input := str "Hi"; Chat.isStreaming := false |}.

Definition blank_state : Chat.State :=
  {| Chat.messages := []; Chat.input := str "   ";
     Chat.isStreaming := false |}.

(** A store with one chat of user [u1], one completed file of [u1] with two
    chunks, and one completed file of another user. *)
Definition store : Relay.Store :=
  {| Relay.chats :=
       [ {| Relay.chat_id := str "c1"; Relay.chat_owner := str "u1";
            Relay.chat_title := str "Lease" |} ];
     Relay.messages := [];
     Relay.files :=
       [ {| Relay.file_id := str "f1"; Relay.file_chat := Some (str "c1");
            Relay.file_owner := str "u1"; Relay.file_name := str "lease.pdf";
            Relay.file_status := Relay.completed |};
         {| Relay.file_id := str "f2"; Relay.file_chat := None;
            Relay.file_owner := str "u2"; Relay.file_name := str "other.pdf";
            Relay.file_status := Relay.completed |} ];
     Relay.file_chunks :=
       [ {| Relay.chunk_file := str "f1"; Relay.chunk_index := 1;
            Relay.chunk_content := str "with 30 days notice.";
            Relay.chunk_page := Some 1%N |};
         {| Relay.chunk_file := str "f1"; Relay.chunk_index := 0;
            Relay.chunk_content := str "Clause 4: either party may terminate ";
            Relay.chunk_page := Some 1%N |};
         {| Relay.chunk_file := str "f2"; Relay.chunk_index := 0;
            Relay.chunk_content := str "Confidential.";
            Relay.chunk_page := None |} ] |}.

Definition config : Relay.Config :=
  {| Relay.system_instruction := str "Answer only from the excerpts.";
     Relay.history_cap := 20 |}.

Definition provider : Relay.Provider :=
  fun _ => ([str "30 days"; str " notice"], None).

Local Open Scope N_scope.

(** A database with one chat of user 1 holding one message, and one file of
    user 1 with one chunk. *)
Definition message1 : Db.messages_row :=
  {| Db.messages_id := 10; Db.messages_chat_id := 1;
     Db.messages_role := "user"; Db.messages_content := "Hello" |}.

Definition file1 : Db.files_row :=
  {| Db.files_id := 20; Db.files_chat_id := Some 1%N; Db.files_user_id := 1;
     Db.files_filename := "lease.pdf"; Db.files_file_path := "1/lease.pdf";
     Db.files_status := Some "completed"%string |}.

Definition chunk1 : Db.file_chunks_row :=
  {| Db.file_chunks_id := 30; Db.file_chunks_file_id := 20;
     Db.file_chunks_chunk_index := 0%Z; Db.file_chunks_content := "Clause 4";
     Db.file_chunks_page_number := None |}.

Definition database : Db.Database :=
  {| Db.chats :=
       [ {| Db.chats_id := 1; Db.chats_user_id := 1;
            Db.chats_title := Some "Lease"%string |} ];
     Db.messages := [message1];
     Db.files := [file1];
     Db.file_chunks := [chunk1] |}.

(** What user 1 may try on the message: rewrite it, delete it, delete its
    chat. *)
Definition tampering : list (Db.Session * Db.Statement) :=
  [ (Db.Authenticated 1,
     Db.UpdateMessages (fun _ => true)
       (fun m => {| Db.messages_id := Db.messages_id m;
                    Db.messages_chat_id := Db.messages_chat_id m;
                    Db.messages_role := "assistant";
                    Db.messages_content := "rewritten" |}));
    (Db.Authenticated 1, Db.DeleteMessages (fun _ => true));
    (Db.Authenticated 1, Db.DeleteChats (fun _ => true));
    (Db.Anonymous, Db.DeleteMessages (fun _ => true)) ].

(** A Supabase client that knows one token, of user [u1], whose profile has
    the given role. *)
Definition supabase (role : string) : AdminFiles.Supabase :=
  {| AdminFiles.auth_getUser := fun token =>
       if streq token (str "token-u1")
       then AdminFiles.Resolves
              {| AdminFiles.user := Some {| AdminFiles.user_id := str "u1" |};
                 AdminFiles.authError := None |}
       else AdminFiles.Resolves
              {| AdminFiles.user := None;
                 AdminFiles.authError := Some (str "invalid JWT") |};
     AdminFiles.select_profile_role := fun _ =>
       AdminFiles.Resolves (Some {| AdminFiles.role := Some (str role) |});
     AdminFiles.select_user_files :=
       AdminFiles.Resolves
         {| AdminFiles.files :=
              Some [ {| AdminFiles.file_row_id := str "f1";
                        AdminFiles.file_row_user_id := str "u1";
                        AdminFiles.file_row_full_name := None |} ];
            AdminFiles.error := None |} |}.

(** An upload of file [f9] whose ingestion was reported as failed. *)
Definition upload_failed : Selection.Event :=
  Selection.FileUploaded (str "f9")
    {| Selection.file_id := str "f9";
       Selection.ingest_status := str "failed";
       Selection.message := str "Could not extract text" |}.

(** The file list shows a completed file [f1] and a pending file [f3]. *)
Definition shown_f1 : Selection.FileUpload :=
  {| Selection.id := str "f1"; Selection.filename := str "lease.pdf";
     Selection.file_path := str "u1/lease.pdf";
     Selection.status := str "completed";
     Selection.created_at := str "2025-01-01T00:00:00Z" |}.

Definition shown_f3 : Selection.FileUpload :=
  {| Selection.id := str "f3"; Selection.filename := str "draft.docx";
     Selection.file_path := str "u1/draft.docx";
     Selection.status := str "pending";
     Selection.created_at := str "2025-01-02T00:00:00Z" |}.

Definition request (header : option string) : AdminFiles.NextRequest :=
  {| AdminFiles.authorization := option_map str header |}.

End Sample.

(* ===================================================================== *)
(** * Lines that add nothing to the stream                               *)
(* ===================================================================== *)

Module Lines.

Section WithRuntime.
Context {R : Runtime}.

(** A line that adds nothing: it is no [data: ] line, or its payload is
    neither [[DONE]] nor a JSON value with a content field. *)
Definition silent (line : jsstring) : Prop :=
  Sse.frame_of line = None \/
  exists data, Sse.frame_of line = Some data /\ Sse.is_done data = false
               /\ Sse.content_field data = None.

End WithRuntime.

End Lines.

(* ===================================================================== *)
(** * frontend/lib/api.ts: the upload calls                              *)
(* ===================================================================== *)

Module Rest.

Import AdminFiles.

(** A response as these functions look at it: [ok], [status],
    [statusText], and what [text()] and [json()] resolve to. *)
Record HttpResponse (A : Type) := {
  ok : bool;
  status : N;
  statusText : jsstring;
  text : Await jsstring;
  json : Await A
}.
Arguments ok {A} _.
Arguments status {A} _.
Arguments statusText {A} _.
Arguments text {A} _.
Arguments json {A} _.

(** A file picked in the browser: its name and its MIME type. *)
Record File := { name : jsstring; type : jsstring }.

(** The body posted to [/v1/files/sign]. *)
Record SignRequest := {
  sign_filename : jsstring;
  sign_content_type : jsstring;
  sign_user_id : jsstring;
  sign_chat_id : option jsstring
}.

Record SignResult := {
  upload_url : jsstring;
  file_id : jsstring;
  file_path : jsstring;
  token : option jsstring
}.

(** The PUT to the signed URL. *)
Record PutRequest := {
  put_url : jsstring;
  put_headers : list (jsstring * jsstring);
  put_body : File
}.

(** The body posted to [/v1/files/ingest]. *)
Record IngestRequest := {
  ingest_file_id : jsstring;
  ingest_user_id : jsstring
}.

(** The network as the three calls find it. *)
Record Network := {
  fetch_sign : SignRequest -> Await (HttpResponse SignResult);
  fetch_put : PutRequest -> Await (HttpResponse unit);
  fetch_ingest : IngestRequest -> Await (HttpResponse Selection.IngestResult)
}.

(** Lines 120-139. *)
Definition getSignedUploadUrl (net : Network)
    (filename contentType userId : jsstring) (chatId : option jsstring)
  : Await SignResult :=
  match fetch_sign net
          {| sign_filename := filename; sign_content_type := contentType;
             sign_user_id := userId; sign_chat_id := chatId |} with
  | Rejects e => Rejects e
  | Resolves response =>
      if negb (ok response)
      then Rejects (Error (str "Failed to get upload URL"))
      else json response
  end.

(** Lines 147-156: the headers of the PUT; the two authorization headers
    are added when a (non-empty) token is given. *)
Definition upload_headers (file : File) (token : option jsstring)
  : list (jsstring * jsstring) :=
  [ (str "Content-Type", type file); (str "x-upsert", str "true") ]
  ++ (if Api.is_truthy token
      then [ (str "Authorization", str "Bearer " ++ Api.value_of token);
             (str "apikey", Api.value_of token) ]
      else []).

(** Lines 169: the message of the error thrown for a refused upload. *)
Definition upload_error (status : N) (statusText errorText : jsstring)
  : jsstring :=
  str "Failed to upload file: " ++ Chat.toString status ++ str " "
  ++ statusText ++ str " - " ++ errorText.

(** Lines 142-171. *)
Definition uploadFileToSignedUrl (net : Network) (signedUrl : jsstring)
    (file : File) (token : option jsstring) : Await unit :=
  match fetch_put net
          {| put_url := signedUrl; put_headers := upload_headers file token;
             put_body := file |} with
  | Rejects e => Rejects e
  | Resolves response =>
      if negb (ok response) then
        match text response with
        | Rejects e => Rejects e
        | Resolves errorText =>
            Rejects (Error (upload_error (status response)
                              (statusText response) errorText))
        end
      else Resolves tt
  end.

(** Lines 174-189. *)
Definition ingestFile (net : Network) (fileId userId : jsstring)
  : Await Selection.IngestResult :=
  match fetch_ingest net
          {| ingest_file_id := fileId; ingest_user_id := userId |} with
  | Rejects e => Rejects e
  | Resolves response =>
      if negb (ok response) then Rejects (Error (str "Failed to ingest file"))
      else json response
  end.

End Rest.

(* ===================================================================== *)
(** * components/files/FileUpload.tsx: [handleFileSelect]                *)
(* ===================================================================== *)

Module Upload.

Import AdminFiles.

Inductive StatusKind := uploading | processing | success | error.

(** The [uploadStatus] state. *)
Record UploadStatus := {
  filename : jsstring;
  status : StatusKind;
  message : option jsstring
}.

(** What the handler does to the component and its surroundings, in
    order. *)
Inductive Effect :=
| SetUploading (b : bool)
| SetUploadStatus (s : UploadStatus)
| CallSign                       (** [getSignedUploadUrl] is called *)
| CallPut (url : jsstring)       (** [uploadFileToSignedUrl] is called *)
| Wait (ms : N)                  (** the two-second pause *)
| CallIngest (fileId : jsstring) (** [ingestFile] is called *)
| OnFileUploaded (fileId : jsstring)
                                 (** the [onFileUploaded] callback (taken to
                                     return normally) *)
| ClearStatusAfter (ms : N)      (** [setTimeout(() => setUploadStatus(null))] *)
| ResetInput.                    (** [e.target.value = ''] *)

Record Props := {
  userId : jsstring;
  chatId : option jsstring
}.

Definition status_of (file : Rest.File) (k : StatusKind)
    (msg : option string) : Effect :=
  SetUploadStatus
    {| filename := Rest.name file; status := k;
       message := option_map str msg |}.

(** Lines 129-168: the [try] block; the effects so far and whether it threw. *)
Definition try_block (net : Rest.Network) (props : Props) (file : Rest.File)
  : list Effect * option JsError :=
  match Rest.getSignedUploadUrl net (Rest.name file) (Rest.type file)
          (userId props) (chatId props) with
  | Rejects e => ([CallSign], Some e)
  | Resolves signed =>
      match Rest.uploadFileToSignedUrl net (Rest.upload_url signed) file
              (Rest.token signed) with
      | Rejects e => ([CallSign; CallPut (Rest.upload_url signed)], Some e)
      | Resolves _ =>
          let before_ingest :=
            [ CallSign; CallPut (Rest.upload_url signed);
              status_of file processing
                (Some "Waiting for upload to complete..."%string);
              Wait 2000;
              status_of file processing
                (Some "Extracting text with OpenAI..."%string);
              CallIngest (Rest.file_id signed) ] in
          match Rest.ingestFile net (Rest.file_id signed) (userId props) with
          | Rejects e => (before_ingest, Some e)
          | Resolves _ =>
              (before_ingest
               ++ [ status_of file success
                      (Some "File processed successfully"%string);
                    OnFileUploaded (Rest.file_id signed);
                    ClearStatusAfter 3000 ],
               None)
          end
      end
  end.

(** Lines 119-181. [picked] is [e.target.files?.[0]]. *)
Definition handleFileSelect (net : Rest.Network) (props : Props)
    (picked : option Rest.File) : list Effect :=
  match picked with
  | None => []
  | Some file =>
      let (done, thrown) := try_block net props file in
      [SetUploading true; status_of file uploading None]
      ++ done
      ++ match thrown with
         | Some _ =>
             [status_of file error (Some "Failed to process file"%string)]
         | None => []
         end
      ++ [SetUploading false; ResetInput]
  end.



End Upload.

(* ===================================================================== *)
(** * app/chat/page.tsx: the chat list                                   *)
(* ===================================================================== *)

Module Page.

Import AdminFiles.

(** [Chat] of frontend/lib/api.ts. *)
Record Chat := {
  id : jsstring;
  user_id : jsstring;
  title : jsstring;
  created_at : jsstring;
  updated_at : jsstring
}.

Record State := {
  currentChatId : option jsstring;
  chats : list Chat;
  selectedFiles : list jsstring
}.

(** [c.id !== chatId] *)
Definition other_than (chatId : jsstring) (c : Chat) : bool :=
  negb (streq (id c) chatId).

(** What a handler reads of the state: [currentChatId] and [chats] are
    constants of the render that made the handler, and keep their values
    across an [await], whatever has been set in the meantime. *)
Record Render := {
  seen_currentChatId : option jsstring;
  seen_chats : list Chat
}.

(** The render of the state [st]. *)
Definition render (st : State) : Render :=
  {| seen_currentChatId := currentChatId st; seen_chats := chats st |}.

(** [currentChatId === chatId] *)
Definition is_current (seen : Render) (chatId : jsstring) : bool :=
  match seen_currentChatId seen with
  | Some c => streq c chatId
  | None => false
  end.

(** The three functions below are given for a signed-in user; without one
    each returns at once.  Lines 55-68, [loadChats], with what
    [getUserChats] came to. *)
Definition loadChats (result : Await (list Chat)) (st : State) : State :=
  match result with
  | Rejects _ => st
  | Resolves userChats =>
      {| chats := userChats;
         currentChatId :=
           match userChats with
           | first :: _ => Some (id first)
           | [] => currentChatId st
           end;
         selectedFiles := selectedFiles st |}
  end.

(** Lines 70-81, [handleNewChat], with what [createChat] came to. *)
Definition handleNewChat (result : Await Chat) (st : State) : State :=
  match result with
  | Rejects _ => st
  | Resolves newChat =>
      {| chats := newChat :: chats st;
         currentChatId := Some (id newChat);
         selectedFiles := [] |}
  end.

(** Lines 83-99, [handleDeleteChat]: [seen] is the render in which the
    button was clicked, [confirmed] the answer to the dialog, [result] what
    [deleteChat] came to, and [st] the state of the page when it did.  The
    updater of [setChats] filters the list as it is then; the test on
    [currentChatId] and [remaining] read the render [seen]. *)
Definition handleDeleteChat (seen : Render) (chatId : jsstring)
    (confirmed : bool) (result : Await unit) (st : State) : State :=
  if negb confirmed then st
  else
    match result with
    | Rejects _ => st
    | Resolves _ =>
        let chats' := filter (other_than chatId) (chats st) in
        if is_current seen chatId then
          let remaining := filter (other_than chatId) (seen_chats seen) in
          {| chats := chats';
             currentChatId :=
               match remaining with
               | first :: _ => Some (id first)
               | [] => None
               end;
             selectedFiles := [] |}
        else
          {| chats := chats'; currentChatId := currentChatId st;
             selectedFiles := selectedFiles st |}
    end.

(** What happens on the page, as far as the chat list goes; each event is
    the moment an awaited call settles, or a click. *)
Inductive Event :=
| ChatsLoaded (result : Await (list Chat))
| NewChat (result : Await Chat)
| DeleteChat (seen : Render) (chatId : jsstring) (confirmed : bool)
    (result : Await unit)
| OpenChat (chat : Chat).
    (** a click on a chat of the list: [setCurrentChatId(chat.id)] *)

Definition step (e : Event) (st : State) : State :=
  match e with
  | ChatsLoaded result => loadChats result st
  | NewChat result => handleNewChat result st
  | DeleteChat seen chatId confirmed result =>
      handleDeleteChat seen chatId confirmed result st
  | OpenChat chat =>
      {| chats := chats st; currentChatId := Some (id chat);
         selectedFiles := selectedFiles st |}
  end.

(** The open chat, if any, is one of the list. *)
Definition open_chat_listed (st : State) : Prop :=
  match currentChatId st with
  | Some c => In c (map id (chats st))
  | None => True
  end.

(** Nothing that matters to a deletion happened while it was in flight:
    the open chat is the one of the render that made the handler, and every
    chat of that render is still listed. *)
Definition undisturbed (seen : Render) (st : State) : Prop :=
  seen_currentChatId seen = currentChatId st /\
  incl (map id (seen_chats seen)) (map id (chats st)).

(** The buttons offer only listed chats, a load does not come back empty
    while a chat is open, and an accepted deletion finds the page
    undisturbed. *)
Definition expected (e : Event) (st : State) : Prop :=
  match e with
  | OpenChat chat => In chat (chats st)
  | ChatsLoaded (Resolves []) => currentChatId st = None
  | DeleteChat seen _ true (Resolves _) => undisturbed seen st
  | _ => True
  end.

End Page.

(* ===================================================================== *)
(** * The Authorization header                                           *)
(* ===================================================================== *)

Module Header.

(** [s.includes(pat)] *)
Fixpoint includes (s pat : jsstring) : bool :=
  startsWith s pat
  || match s with
     | [] => false
     | _ :: s' => includes s' pat
     end.

Definition bearer : jsstring := str "Bearer ".

End Header.

(* ===================================================================== *)
(** * More sample inputs                                                 *)
(* ===================================================================== *)

Module MoreSamples.

(** One complete event, then a frame that never gets its line feed. *)
Definition first_read : list byte :=
  Sample.bytes (Sample.event (Sample.object1 "content" "Hel")).

Definition cut_read : list byte :=
  Sample.bytes ("data: " ++ Sample.object1 "content" "lo").

(** An SSE comment line, as servers send to keep a connection alive. *)
Definition comment_line : jsstring := str ": keep-alive".

Definition content_line : jsstring :=
  str ("data: " ++ Sample.object1 "content" "Hel").

(** The file list shows [f1] and [f3]; the user clicks [f1] twice and
    uploads [f9]. *)
Definition clicks : list Selection.Event :=
  [ Selection.ChatFilesLoaded [Sample.shown_f1; Sample.shown_f3];
    Selection.FileListClick Sample.shown_f1;
    Sample.upload_failed;
    Selection.FileListClick Sample.shown_f1 ].

(** An upload that goes through: the sign request returns [f9], the PUT
    and the ingestion are answered ok, and the ingestion reports the file
    as failed. *)
Definition picked : Rest.File :=
  {| Rest.name := str "scan.pdf"; Rest.type := str "application/pdf" |}.

Definition upload_props : Upload.Props :=
  {| Upload.userId := str "u1"; Upload.chatId := Some (str "c1") |}.

Definition answered {A} (value : A)
  : AdminFiles.Await (Rest.HttpResponse A) :=
  AdminFiles.Resolves
    {| Rest.ok := true; Rest.status := 200; Rest.statusText := str "OK";
       Rest.text := AdminFiles.Resolves [];
       Rest.json := AdminFiles.Resolves value |}.

Definition ingest_failed : Selection.IngestResult :=
  {| Selection.file_id := str "f9";
     Selection.ingest_status := str "failed";
     Selection.message := str "Could not extract text" |}.

Definition net_ingest_failed : Rest.Network :=
  {| Rest.fetch_sign := fun _ =>
       answered {| Rest.upload_url := str "https://storage/u1/scan.pdf";
                   Rest.file_id := str "f9";
                   Rest.file_path := str "u1/scan.pdf";
                   Rest.token := None |};
     Rest.fetch_put := fun _ => answered tt;
     Rest.fetch_ingest := fun _ => answered ingest_failed |}.

(** The row of [f9] in the file list afterwards. *)
Definition listed_f9 : Selection.FileUpload :=
  {| Selection.id := str "f9"; Selection.filename := str "scan.pdf";
     Selection.file_path := str "u1/scan.pdf";
     Selection.status := str "failed";
     Selection.created_at := str "2025-01-03T00:00:00Z" |}.

Definition chat (id title : string) : Page.Chat :=
  {| Page.id := str id; Page.user_id := str "u1"; Page.title := str title;
     Page.created_at := str "2025-01-01T00:00:00Z";
     Page.updated_at := str "2025-01-01T00:00:00Z" |}.

(** Two chats, the first one open, one file selected. *)
Definition page : Page.State :=
  {| Page.currentChatId := Some (str "c1");
     Page.chats := [chat "c1" "Lease"; chat "c2" "Shares"];
     Page.selectedFiles := [str "f1"] |}.

(** The open chat is deleted from the render of [page]. *)
Definition delete_c1 : Page.Event :=
  Page.DeleteChat (Page.render page) (str "c1") true (AdminFiles.Resolves tt).

(** The second chat was opened while its deletion was in flight. *)
Definition page_on_c2 : Page.State :=
  {| Page.currentChatId := Some (str "c2");
     Page.chats := Page.chats page;
     Page.selectedFiles := [] |}.

End MoreSamples.

(* ===================================================================== *)
(** * Facts about the string methods                                     *)
(* ===================================================================== *)

Unset Implicit Arguments.

Section StringFacts.

Lemma streq_true_iff (a b : jsstring) : streq a b = true <-> a = b.
Proof.
  unfold streq. destruct (list_eq_dec N.eq_dec a b); split; congruence.
Qed.

Lemma streq_refl (a : jsstring) : streq a a = true.
Proof. now apply streq_true_iff. Qed.

Lemma is_empty_true_iff (s : jsstring) : is_empty s = true <-> s = [].
Proof. destruct s; simpl; split; congruence. Qed.

Lemma or_else_empty (s : jsstring) : or_else (Some s) [] = s.
Proof. destruct s; reflexivity. Qed.

Lemma split_not_nil (sep : codeunit) (s : jsstring) : split sep s <> [].
Proof.
  induction s as [|c s IH]; simpl; [discriminate|].
  destruct (c =? sep)%N; [discriminate|].
  destruct (split sep s); [contradiction|discriminate].
Qed.

Lemma pop_not_nil {A} (l : list A) (d : A) :
  l <> [] -> pop l = (Some (last l d), removelast l).
Proof.
  intros Hl. destruct (exists_last Hl) as [init [x ->]].
  unfold pop. rewrite rev_unit, rev_involutive.
  now rewrite last_last, removelast_last.
Qed.

Lemma pop_split (sep : codeunit) (s : jsstring) :
  pop (split sep s)
  = (Some (last (split sep s) []), removelast (split sep s)).
Proof. apply pop_not_nil, split_not_nil. Qed.

(** Splitting a text that arrives in two parts: the complete lines of the
    first part, then the split of its unfinished tail followed by the
    second part. *)
Lemma split_app (sep : codeunit) (a b : jsstring) :
  split sep (a ++ b)
  = removelast (split sep a) ++ split sep (last (split sep a) [] ++ b).
Proof.
  induction a as [|c a IH]; [reflexivity|].
  pose proof (split_not_nil sep a) as Hn.
  change ((c :: a) ++ b) with (c :: (a ++ b)).
  cbn [split]. destruct (c =? sep)%N eqn:Ec.
  - rewrite IH. destruct (split sep a) as [|l ls]; [contradiction|].
    reflexivity.
  - rewrite IH. destruct (split sep a) as [|l [|l' ls]]; [contradiction| |].
    + cbn [removelast last app]. cbn [split]. now rewrite Ec.
    + reflexivity.
Qed.

End StringFacts.

(* ===================================================================== *)
(** * [streamChatMessage] read by read and the text as a whole           *)
(* ===================================================================== *)

Section StreamFacts.
Context {R : Runtime}.

Import Gen.

Lemma decode_app (st : DecoderState) (a b : list byte) :
  Api.decode st (a ++ b)
  = let (st1, out1) := Api.decode st a in
    let (st2, out2) := Api.decode st1 b in
    (st2, out1 ++ out2).
Proof.
  revert st. induction a as [|x a IH]; intros st; simpl.
  - now destruct (Api.decode st b).
  - destruct (decode_byte st x) as [st1 o1]. rewrite IH.
    destruct (Api.decode st1 a) as [st2 o2].
    destruct (Api.decode st2 b) as [st3 o3].
    now rewrite app_assoc.
Qed.

(** The inner [try]/[catch] never lets an exception out, and nothing in it
    ends the generator. *)
Lemma handle_data_completes (data : jsstring) :
  snd (Api.handle_data data) = Normal tt.
Proof.
  unfold Api.handle_data, Api.parse.
  destruct (JSON_parse data) as [[|c e]|]; simpl; try reflexivity.
  destruct (Api.is_truthy c), (Api.is_truthy e); reflexivity.
Qed.

(** What the inner [try]/[catch] yields. *)
Lemma handle_data_yields (data : jsstring) :
  fst (Api.handle_data data)
  = match Sse.content_field data with
    | Some c => if truthy c then [c] else []
    | None => []
    end.
Proof.
  unfold Api.handle_data, Api.parse, Sse.content_field.
  destruct (JSON_parse data) as [[|c e]|]; simpl; try reflexivity.
  destruct c as [c|]; simpl.
  - destruct (truthy c), (Api.is_truthy e); reflexivity.
  - destruct (Api.is_truthy e); reflexivity.
Qed.

(** A line seen through [Sse.frame_of]. *)
Lemma process_line_frame (line : jsstring) :
  Api.process_line line
  = match Sse.frame_of line with
    | Some data =>
        if Sse.is_done data then return_
        else if is_empty data then continue
        else Api.handle_data data
    | None => if is_empty (trim line) then continue else ret tt
    end.
Proof.
  unfold Api.process_line, Sse.frame_of, Sse.is_done.
  destruct (trim line) as [|c t] eqn:E; [reflexivity|].
  cbn [is_empty]. destruct (startsWith (c :: t) (str "data: ")); reflexivity.
Qed.

Lemma process_line_no_throw (line : jsstring) (e : JsError) :
  snd (Api.process_line line) <> Throw e.
Proof.
  rewrite process_line_frame.
  destruct (Sse.frame_of line) as [data|].
  - destruct (Sse.is_done data); [discriminate|].
    destruct (is_empty data); [discriminate|].
    now rewrite handle_data_completes.
  - destruct (is_empty (trim line)); discriminate.
Qed.

Lemma content_field_empty : Sse.content_field [] = None.
Proof. unfold Sse.content_field. now rewrite JSON_parse_empty. Qed.

Lemma for_of_lines (lines : list jsstring) :
  for_of lines Api.process_line
  = (Sse.lines_yields lines,
     if Sse.has_done (Sse.frames_of_lines lines) then Return else Normal tt).
Proof.
  unfold Sse.lines_yields.
  induction lines as [|l lines IH]; [reflexivity|].
  cbn [for_of Sse.frames_of_lines]. rewrite process_line_frame.
  destruct (Sse.frame_of l) as [data|].
  - cbn [Sse.before_done Sse.has_done existsb].
    destruct (Sse.is_done data) eqn:Ed; [reflexivity|].
    cbn [orb Sse.content_fields].
    destruct (is_empty data) eqn:Ee.
    + apply is_empty_true_iff in Ee. subst data.
      rewrite content_field_empty. unfold continue. now rewrite IH.
    + pose proof (handle_data_completes data) as Hc.
      pose proof (handle_data_yields data) as Hy.
      destruct (Api.handle_data data) as [ys c]. simpl in Hc, Hy. subst c ys.
      rewrite IH.
      destruct (Sse.content_field data) as [c|]; [|reflexivity].
      cbn [filter]. now destruct (truthy c).
  - destruct (is_empty (trim l)); unfold continue, ret; now rewrite IH.
Qed.

Lemma frames_of_lines_app (a b : list jsstring) :
  Sse.frames_of_lines (a ++ b)
  = Sse.frames_of_lines a ++ Sse.frames_of_lines b.
Proof.
  induction a as [|l a IH]; [reflexivity|]. simpl.
  destruct (Sse.frame_of l); simpl; now rewrite IH.
Qed.

Lemma before_done_app (a b : list jsstring) :
  Sse.before_done (a ++ b)
  = if Sse.has_done a then Sse.before_done a
    else a ++ Sse.before_done b.
Proof.
  induction a as [|f a IH]; [reflexivity|]. simpl.
  destruct (Sse.is_done f); [reflexivity|]. simpl. rewrite IH.
  now destruct (Sse.has_done a).
Qed.

Lemma before_done_no_done (a : list jsstring) :
  Sse.has_done a = false -> Sse.before_done a = a.
Proof.
  induction a as [|f a IH]; [reflexivity|]. simpl.
  destruct (Sse.is_done f); [discriminate|]. simpl. intros H.
  now rewrite IH.
Qed.

Lemma content_fields_app (a b : list jsstring) :
  Sse.content_fields (a ++ b) = Sse.content_fields a ++ Sse.content_fields b.
Proof.
  induction a as [|f a IH]; [reflexivity|]. simpl.
  destruct (Sse.content_field f); simpl; now rewrite IH.
Qed.

Lemma lines_yields_app (a b : list jsstring) :
  Sse.lines_yields (a ++ b)
  = if Sse.has_done (Sse.frames_of_lines a) then Sse.lines_yields a
    else Sse.lines_yields a ++ Sse.lines_yields b.
Proof.
  unfold Sse.lines_yields. rewrite frames_of_lines_app, before_done_app.
  destruct (Sse.has_done (Sse.frames_of_lines a)) eqn:E; [reflexivity|].
  rewrite content_fields_app, filter_app.
  now rewrite (before_done_no_done _ E).
Qed.

Lemma has_done_app (a b : list jsstring) :
  Sse.has_done (a ++ b) = Sse.has_done a || Sse.has_done b.
Proof. apply existsb_app. Qed.

Lemma complete_lines_app (a b : jsstring) :
  Sse.complete_lines (a ++ b)
  = Sse.complete_lines a
    ++ Sse.complete_lines (last (split newline a) [] ++ b).
Proof.
  unfold Sse.complete_lines. rewrite split_app.
  apply removelast_app, split_not_nil.
Qed.

Lemma split_no_sep (sep : codeunit) (s : jsstring) :
  ~ In sep s -> split sep s = [s].
Proof.
  induction s as [|c s IH]; [reflexivity|]. intros H. cbn [split].
  destruct (c =? sep)%N eqn:E.
  - apply N.eqb_eq in E. subst. exfalso. apply H. now left.
  - rewrite IH; [reflexivity|]. intros Hin. apply H. now right.
Qed.

Lemma split_segments (sep : codeunit) (s : jsstring) :
  Forall (fun l => ~ In sep l) (split sep s).
Proof.
  induction s as [|c s IH]; cbn [split].
  - constructor; [intros []|constructor].
  - destruct (c =? sep)%N eqn:E.
    + constructor; [intros []|exact IH].
    + pose proof (split_not_nil sep s) as Hn.
      destruct (split sep s) as [|l ls]; [contradiction|].
      inversion IH as [|? ? Hl Hls]; subst. constructor; [|exact Hls].
      intros [->|Hin]; [|now apply Hl].
      now rewrite N.eqb_refl in E.
Qed.

(** The unfinished tail kept in [buffer] holds no complete line. *)
Lemma tail_has_no_line (s : jsstring) :
  Sse.complete_lines (last (split newline s) []) = [].
Proof.
  unfold Sse.complete_lines. rewrite split_no_sep; [reflexivity|].
  pose proof (split_segments newline s) as HF.
  pose proof (split_not_nil newline s) as Hn.
  destruct (exists_last Hn) as [init [x E]]. rewrite E in *.
  rewrite last_last. apply Forall_app in HF. destruct HF as [_ HF].
  now inversion HF.
Qed.

(** The loop over the reads does to the chunks what one pass does to the
    newline-terminated lines of the whole text. *)
Lemma read_loop_lines (pending : list (list byte)) (fin : Api.ReadEnd)
    (decoder : DecoderState) (buffer : jsstring) :
  Sse.complete_lines buffer = [] ->
  let lines :=
    Sse.complete_lines
      (buffer ++ snd (Api.decode decoder (List.concat pending))) in
  fst (Api.read_loop pending fin decoder buffer)
  = (Sse.lines_yields lines,
     if Sse.has_done (Sse.frames_of_lines lines) then Return
     else Api.finish fin).
Proof.
  revert decoder buffer.
  induction pending as [|value pending IH]; intros decoder buffer Hb;
    cbn zeta.
  - cbn [List.concat Api.decode snd]. rewrite app_nil_r, Hb.
    cbn [Api.read_loop]. now destruct fin.
  - cbn [List.concat Api.read_loop]. rewrite decode_app.
    destruct (Api.decode decoder value) as [decoder' chunk].
    specialize
      (IH decoder'
          (or_else (Some (last (split newline (buffer ++ chunk)) [])) [])).
    rewrite pop_split. rewrite or_else_empty in *.
    specialize (IH (tail_has_no_line _)). cbn zeta in IH.
    destruct (Api.decode decoder' (List.concat pending)) as [st2 rest].
    cbn [snd] in *. rewrite app_assoc, complete_lines_app.
    fold (Sse.complete_lines (buffer ++ chunk)).
    rewrite for_of_lines, lines_yields_app, frames_of_lines_app, has_done_app.
    destruct (Sse.has_done (Sse.frames_of_lines
                (Sse.complete_lines (buffer ++ chunk)))); [reflexivity|].
    destruct (Api.read_loop pending fin decoder' _) as [[ys c] n].
    cbn [fst] in IH. inversion IH; subst. reflexivity.
Qed.

(** The generator on a response that is ok and has a body, in terms of the
    whole response text. *)
Lemma stream_of_text (fetch : Api.Request -> Api.FetchResult)
    (chatId message userId : jsstring) (fileIds : list jsstring)
    (b : Api.Body) :
  fetch (Api.mkRequest chatId message userId fileIds)
    = Api.Resolved {| Api.ok := true; Api.body := Some b |} ->
  let run := Api.streamChatMessage fetch chatId message userId fileIds in
  let fs := Sse.frames (Sse.decode_all (List.concat (Api.chunks b))) in
  Api.yields run
    = filter truthy (Sse.content_fields (Sse.before_done fs)) /\
  Api.completion run
    = (if Sse.has_done fs then Return else Api.finish (Api.ending b)).
Proof.
  intros Hf. cbn zeta. unfold Api.streamChatMessage. rewrite Hf.
  cbn [Api.ok Api.body negb].
  pose proof (read_loop_lines (Api.chunks b) (Api.ending b) decoder_new []
                eq_refl) as H.
  cbn zeta in H. cbn [app] in H.
  destruct (Api.read_loop _ _ _ _) as [[ys c] n]. cbn [fst] in H.
  inversion H; subst. split; reflexivity.
Qed.

End StreamFacts.

(* ===================================================================== *)
(** * Streaming: what [streamChatMessage] guarantees                      *)
(* ===================================================================== *)

Section StreamGuarantees.
Context {R : Runtime}.

Import Gen.

Lemma stream_answering
    (chatId message userId : jsstring) (fileIds : list jsstring)
    (reads : list (list byte)) (fin : Api.ReadEnd) :
  let run :=
    Api.streamChatMessage (Api.answering (Api.streaming reads fin))
      chatId message userId fileIds in
  let fs := Sse.frames (Sse.decode_all (List.concat reads)) in
  Api.yields run = filter truthy (Sse.content_fields (Sse.before_done fs)) /\
  Api.completion run
    = (if Sse.has_done fs then Return else Api.finish fin).
Proof.
  exact (stream_of_text (Api.answering (Api.streaming reads fin))
           chatId message userId fileIds
           {| Api.chunks := reads; Api.ending := fin |} eq_refl).
Qed.

(** C9. The yields and the completion of [streamChatMessage] depend on the
    bytes of the response only, not on how the reads cut them: two
    sequences of reads with the same concatenation (and the same end) give
    the same sequence of content strings. *)
Theorem streamChatMessage_partition_insensitive
    (chatId message userId : jsstring) (fileIds : list jsstring)
    (reads1 reads2 : list (list byte)) (fin : Api.ReadEnd) :
  List.concat reads1 = List.concat reads2 ->
  let run1 :=
    Api.streamChatMessage (Api.answering (Api.streaming reads1 fin))
      chatId message userId fileIds in
  let run2 :=
    Api.streamChatMessage (Api.answering (Api.streaming reads2 fin))
      chatId message userId fileIds in
  Api.yields run1 = Api.yields run2 /\
  Api.completion run1 = Api.completion run2.
Proof.
  intros Heq. cbn zeta.
  destruct (stream_answering chatId message userId
              fileIds reads1 fin) as [Hy1 Hc1].
  destruct (stream_answering chatId message userId
              fileIds reads2 fin) as [Hy2 Hc2].
  rewrite Hy1, Hy2, Hc1, Hc2, Heq. split; reflexivity.
Qed.

(** C4. When the response is not ok, [streamChatMessage] throws
    ['Failed to send message'] having yielded nothing, made no [read()] call
    and never taken a reader on the body. *)
Theorem streamChatMessage_not_ok_throws_upfront
    (fetch : Api.Request -> Api.FetchResult)
    (chatId message userId : jsstring) (fileIds : list jsstring)
    (response : Api.Response) :
  fetch (Api.mkRequest chatId message userId fileIds)
    = Api.Resolved response ->
  Api.ok response = false ->
  Api.streamChatMessage fetch chatId message userId fileIds
  = {| Api.yields := [];
       Api.completion := Throw (Error (str "Failed to send message"));
       Api.reads := 0;
       Api.released := false |}.
Proof.
  intros Hf Hok. unfold Api.streamChatMessage. now rewrite Hf, Hok.
Qed.

(** C3. An error frame is swallowed: the line that carries it completes
    normally, so the loop goes on with the lines after it; no line at all
    makes the loop body throw; and a response whose body ends without a
    reader failure never makes the generator throw, whatever frames it
    holds. *)
Theorem error_frame_is_swallowed
    (line data e : jsstring) (rest : list jsstring)
    (reads : list (list byte))
    (chatId message userId : jsstring) (fileIds : list jsstring) :
  Sse.frame_of line = Some data ->
  Sse.error_field data = Some e ->
  Sse.is_done data = false ->
  (Api.process_line line = (Sse.content_of_frame data, Normal tt) /\
   for_of (line :: rest) Api.process_line
   = (Sse.content_of_frame data ++ fst (for_of rest Api.process_line),
      snd (for_of rest Api.process_line))) /\
  (forall other err, snd (Api.process_line other) <> Throw err) /\
  (forall err,
     Api.completion
       (Api.streamChatMessage (Api.answering (Api.streaming reads Api.Closed))
          chatId message userId fileIds) <> Throw err).
Proof.
  intros Hframe Herr Hdone.
  assert (Hline : Api.process_line line
                  = (Sse.content_of_frame data, Normal tt)).
  { rewrite process_line_frame, Hframe, Hdone.
    destruct (is_empty data) eqn:Ee.
    - apply is_empty_true_iff in Ee. subst data.
      unfold Sse.error_field in Herr. rewrite JSON_parse_empty in Herr.
      discriminate.
    - pose proof (handle_data_completes data) as Hc.
      pose proof (handle_data_yields data) as Hy.
      destruct (Api.handle_data data) as [ys c]. simpl in Hc, Hy.
      now subst. }
  split; [split; [exact Hline|]|split].
  - cbn [for_of]. rewrite Hline.
    now destruct (for_of rest Api.process_line).
  - exact process_line_no_throw.
  - intros err.
    destruct (stream_answering chatId message
                userId fileIds reads Api.Closed) as [_ Hc].
    rewrite Hc. destruct (Sse.has_done _); discriminate.
Qed.

End StreamGuarantees.

(* ===================================================================== *)
(** * The relay's stream and the client's reading of it                  *)
(* ===================================================================== *)

Section RelayStream.

Import Relay.

(** The frames the relay emits follow the grammar of section 6. *)
Lemma send_message_well_formed (cfg : Config) (provider : Provider) (now : N)
    (s : Store) (chat user_id message_text : text) (file_ids : list text) :
  match fst (send_message cfg provider now s chat user_id message_text
               file_ids) with
  | Stream frames => well_formed frames
  | Failure _ => True
  end.
Proof.
  unfold send_message.
  destruct (is_empty (trim message_text)); [exact I|].
  destruct (negb (owns_chat s chat user_id)); [exact I|].
  destruct (provider _) as [[|f fragments] [e|]]; cbn [fst];
    try exact I; eexists _, _; reflexivity.
Qed.

End RelayStream.

Section StreamGrammar.
Context {R : Runtime}.

Import Gen.

Lemma decode_all_app (a b : list byte) :
  exists more, Sse.decode_all (a ++ b) = Sse.decode_all a ++ more.
Proof.
  unfold Sse.decode_all. rewrite decode_app.
  destruct (Api.decode decoder_new a) as [st1 o1].
  destruct (Api.decode st1 b) as [st2 o2]. now exists o2.
Qed.

Lemma before_done_frames_app (text more : jsstring) :
  Sse.has_done (Sse.frames text) = true ->
  Sse.before_done (Sse.frames (text ++ more))
  = Sse.before_done (Sse.frames text).
Proof.
  intros H. unfold Sse.frames in *.
  rewrite complete_lines_app, frames_of_lines_app, before_done_app.
  now rewrite H.
Qed.

(** C2, as the code has it. The relay's stream is content frames, at most
    one error frame, then [[DONE]]. On any response text the generator
    yields, in order, the non-empty content fields of the JSON [data: ]
    frames (newline-terminated lines) that precede the first [[DONE]] frame;
    it returns at that frame when there is one and otherwise ends as the
    body ends; whatever bytes follow the [[DONE]] frame change nothing. *)
Theorem stream_yields_nonempty_content_before_done
    (cfg : Relay.Config) (provider : Relay.Provider) (now : N)
    (s : Relay.Store) (chat user_id message_text : Relay.text)
    (file_ids : list Relay.text)
    (chatId message userId : jsstring) (fileIds : list jsstring)
    (reads after : list (list byte)) (fin : Api.ReadEnd) :
  let run rs :=
    Api.streamChatMessage (Api.answering (Api.streaming rs fin))
      chatId message userId fileIds in
  let fs := Sse.frames (Sse.decode_all (List.concat reads)) in
  match fst (Relay.send_message cfg provider now s chat user_id message_text
               file_ids) with
  | Relay.Stream frames => Relay.well_formed frames
  | Relay.Failure _ => True
  end /\
  Api.yields (run reads)
    = filter truthy (Sse.content_fields (Sse.before_done fs)) /\
  Api.completion (run reads)
    = (if Sse.has_done fs then Return else Api.finish fin) /\
  (Sse.has_done fs = true ->
   Api.yields (run (reads ++ after)) = Api.yields (run reads)).
Proof.
  cbn zeta. split; [apply send_message_well_formed|].
  destruct (stream_answering chatId message userId fileIds reads fin)
    as [Hy Hc].
  split; [exact Hy|]. split; [exact Hc|].
  intros Hd.
  destruct (stream_answering chatId message userId fileIds (reads ++ after)
              fin) as [Hy' _].
  rewrite Hy', Hy, concat_app.
  destruct (decode_all_app (List.concat reads) (List.concat after))
    as [more ->].
  now rewrite before_done_frames_app.
Qed.

End StreamGrammar.

(** C2 as stated fails on a frame whose content is the empty string: the
    frame precedes [[DONE]] and has a content field, and nothing is
    yielded for it. *)
Lemma empty_content_field_is_not_yielded :
  Api.yields
    (Api.streamChatMessage (R := Sample.runtime)
       (Api.answering
          (Api.streaming [Sample.bytes Sample.text_empty_content] Api.Closed))
       [] [] [] [])
  = [] /\
  Sse.content_fields (R := Sample.runtime)
    (Sse.before_done
       (Sse.frames
          (Sse.decode_all (R := Sample.runtime)
             (Sample.bytes Sample.text_empty_content))))
  = [ [] ] /\
  Api.yields
    (Api.streamChatMessage (R := Sample.runtime)
       (Api.answering
          (Api.streaming [Sample.bytes Sample.text_empty_content] Api.Closed))
       [] [] [] [])
  <> Sse.content_fields (R := Sample.runtime)
       (Sse.before_done
          (Sse.frames
             (Sse.decode_all (R := Sample.runtime)
                (Sample.bytes Sample.text_empty_content)))).
Proof.
  split; [vm_compute; reflexivity|].
  split; [vm_compute; reflexivity|].
  vm_compute. discriminate.
Qed.

(* ===================================================================== *)
(** * [handleSend]                                                       *)
(* ===================================================================== *)

Section HandleSend.
Context {R : Runtime}.

Import Gen.

Lemma pop_snoc {A} (l : list A) (x : A) : pop (l ++ [x]) = (Some x, l).
Proof. unfold pop. now rewrite rev_unit, rev_involutive. Qed.

Lemma set_last_content_assistant (c : jsstring) (init : list Chat.Message)
    (a : Chat.Message) :
  Chat.is_assistant (Chat.role a) = true ->
  Chat.set_last_content c (init ++ [a]) = init ++ [Chat.with_content a c].
Proof.
  intros Ha. unfold Chat.set_last_content. now rewrite pop_snoc, Ha.
Qed.

(** The [for await] loop leaves the concatenation of the chunks both in
    [fullContent] and in the last message. *)
Lemma consume_concat (chunks : list jsstring) :
  forall (fullContent : jsstring) (init : list Chat.Message)
         (a : Chat.Message),
    Chat.is_assistant (Chat.role a) = true ->
    Chat.content a = fullContent ->
    Chat.consume chunks fullContent (init ++ [a])
    = (fullContent ++ List.concat chunks,
       init ++ [Chat.with_content a (fullContent ++ List.concat chunks)]).
Proof.
  induction chunks as [|chunk chunks IH]; intros full init a Ha Hc.
  - cbn [Chat.consume List.concat]. rewrite app_nil_r.
    destruct a; cbn in *. now subst.
  - cbn [Chat.consume List.concat].
    rewrite set_last_content_assistant by exact Ha.
    rewrite IH by (try reflexivity; exact Ha).
    now rewrite app_assoc.
Qed.

Lemma concat_filter_truthy (l : list jsstring) :
  List.concat (filter truthy l) = List.concat l.
Proof.
  induction l as [|x l IH]; [reflexivity|]. cbn [filter List.concat].
  destruct x; cbn [truthy is_empty negb]; cbn [List.concat app];
    now rewrite IH.
Qed.

(** C1. When the stream succeeds (the response is ok, has a body, and the
    generator does not throw), [handleSend] leaves as the assistant message
    exactly the concatenation of the chunks [streamChatMessage] yielded, and
    that string is the concatenation, in order, of the content fields of the
    frames up to [[DONE]]. *)
Theorem handleSend_content_is_concatenation
    (fetch : Api.Request -> Api.FetchResult) (props : Chat.Props)
    (clock : Chat.Clock) (st : Chat.State) (b : Api.Body) :
  is_empty (trim (Chat.input st)) = false ->
  Chat.isStreaming st = false ->
  fetch (Api.mkRequest (Chat.chatId props) (Chat.input st)
           (Chat.userId props) (Chat.selectedFiles props))
    = Api.Resolved {| Api.ok := true; Api.body := Some b |} ->
  let run :=
    Api.streamChatMessage fetch (Chat.chatId props) (Chat.input st)
      (Chat.userId props) (Chat.selectedFiles props) in
  (forall e, Api.completion run <> Throw e) ->
  Chat.handleSend fetch props clock st
  = ({| Chat.messages :=
          Chat.messages st
          ++ [ {| Chat.id := Chat.toString (Chat.now_user clock);
                  Chat.role := Chat.user;
                  Chat.content := Chat.input st;
                  Chat.timestamp := Chat.date_user clock |};
               {| Chat.id := Chat.toString (Chat.now_assistant clock + 1);
                  Chat.role := Chat.assistant;
                  Chat.content := List.concat (Api.yields run);
                  Chat.timestamp := Chat.date_assistant clock |} ];
        Chat.input := [];
        Chat.isStreaming := false |},
     Some run) /\
  List.concat (Api.yields run)
  = List.concat
      (Sse.content_fields
         (Sse.before_done
            (Sse.frames (Sse.decode_all (List.concat (Api.chunks b)))))).
Proof.
  intros Hin Hst Hf run Hok. split.
  - unfold Chat.handleSend. rewrite Hin, Hst. cbn [orb]. fold run.
    rewrite consume_concat by reflexivity.
    cbn [app Chat.with_content Chat.id Chat.role Chat.timestamp].
    rewrite <- app_assoc. cbn [app].
    destruct (Api.completion run) as [[]| | |e] eqn:Ec; try reflexivity.
    now destruct (Hok e).
  - destruct (stream_of_text fetch _ _ _ _ _ Hf) as [Hy _]. fold run in Hy.
    rewrite Hy. apply concat_filter_truthy.
Qed.

(** C5. A message that is empty after trimming is refused by the relay with
    [InvalidArgument], no stream and the store as it was; on the client,
    [handleSend] returns with the state as it was and without calling
    [streamChatMessage]. *)
Theorem blank_message_is_refused
    (cfg : Relay.Config) (provider : Relay.Provider) (now : N)
    (s : Relay.Store) (chat user_id message_text : Relay.text)
    (file_ids : list Relay.text)
    (fetch : Api.Request -> Api.FetchResult) (props : Chat.Props)
    (clock : Chat.Clock) (st : Chat.State) :
  (trim message_text = [] ->
   Relay.send_message cfg provider now s chat user_id message_text file_ids
   = (Relay.Failure Relay.InvalidArgument, s)) /\
  (trim (Chat.input st) = [] ->
   Chat.handleSend fetch props clock st = (st, None)).
Proof.
  split; intros H.
  - unfold Relay.send_message. now rewrite H.
  - unfold Chat.handleSend. now rewrite H.
Qed.

End HandleSend.

(* ===================================================================== *)
(** * File identifiers: what the relay keeps and what the client selects *)
(* ===================================================================== *)

Section FileIds.

Lemma valid_file_none (s : Relay.Store) (user_id fid : Relay.text) :
  (forall f, In f (Relay.files s) -> Relay.file_id f = fid ->
             Relay.file_owner f = user_id ->
             Relay.file_status f <> Relay.completed) ->
  Relay.valid_file s user_id fid = None.
Proof.
  intros H. unfold Relay.valid_file.
  destruct (find _ (Relay.files s)) as [f|] eqn:E; [|reflexivity].
  apply find_some in E. destruct E as [Hin Hp].
  apply andb_prop in Hp. destruct Hp as [Hp Hc].
  apply andb_prop in Hp. destruct Hp as [Hi Ho].
  apply streq_true_iff in Hi, Ho.
  exfalso. apply (H f Hin Hi Ho).
  now destruct (Relay.file_status f).
Qed.

Lemma excerpts_drop (s : Relay.Store) (user_id fid : Relay.text)
    (before after : list Relay.text) :
  Relay.valid_file s user_id fid = None ->
  Relay.excerpts s user_id (before ++ fid :: after)
  = Relay.excerpts s user_id (before ++ after).
Proof.
  intros H. induction before as [|x before IH]; cbn [app Relay.excerpts].
  - now rewrite H.
  - now rewrite IH.
Qed.

Lemma handleFileSelect_in (fileId x : jsstring) (prev : list jsstring) :
  In x (Selection.handleFileSelect fileId prev) -> In x prev \/ x = fileId.
Proof.
  unfold Selection.handleFileSelect.
  destruct (Selection.includes prev fileId).
  - intros H. apply filter_In in H. now left.
  - intros H. apply in_app_or in H. destruct H as [H|[H|[]]]; auto.
Qed.

(** Where a selected identifier comes from, event by event: it was
    selected before, or the event showed its file as completed, or it is
    an uploaded file whose ingestion was reported with another status. *)
Lemma step_sources (e : Selection.Event) (selected : list jsstring)
    (x : jsstring) :
  In x (Selection.step e selected) ->
  In x selected \/ In x (Selection.shown_completed e)
  \/ In x (Selection.unchecked_upload e).
Proof.
  destruct e as [files| | | | |file|fileId ingest];
    cbn [Selection.step Selection.shown_completed
         Selection.unchecked_upload];
    intros H; auto; try contradiction.
  - destruct (Selection.completed file); [|now left].
    apply handleFileSelect_in in H. destruct H as [H| ->]; [now left|].
    right; left; now left.
  - apply handleFileSelect_in in H. destruct H as [H| ->]; [now left|].
    right. destruct (Selection.ingest_completed ingest);
      [left|right]; now left.
Qed.

(** In the relay an identifier that does not belong to a completed file
    of the user adds no excerpt and changes neither the reply nor the
    store: the call goes as if the identifier had not been sent. *)
Lemma relay_drops_invalid_file_ids
    (cfg : Relay.Config) (provider : Relay.Provider) (now : N)
    (s : Relay.Store) (chat user_id message_text fid : Relay.text)
    (before after : list Relay.text) :
  (forall f, In f (Relay.files s) -> Relay.file_id f = fid ->
             Relay.file_owner f = user_id ->
             Relay.file_status f <> Relay.completed) ->
  Relay.excerpts s user_id (before ++ fid :: after)
  = Relay.excerpts s user_id (before ++ after) /\
  Relay.send_message cfg provider now s chat user_id message_text
    (before ++ fid :: after)
  = Relay.send_message cfg provider now s chat user_id message_text
      (before ++ after).
Proof.
  intros H. apply valid_file_none in H.
  pose proof (excerpts_drop s user_id fid before after H) as E.
  split; [exact E|]. unfold Relay.send_message. now rewrite E.
Qed.

End FileIds.

(* ===================================================================== *)
(** * The schema: cascades and row level security                        *)
(* ===================================================================== *)

Section Schema.

Import Db.

Lemma mem_In (x : uuid) (l : list uuid) : mem x l = true <-> In x l.
Proof.
  unfold mem. rewrite existsb_exists. split.
  - intros [y [Hy E]]. apply N.eqb_eq in E. now subst.
  - intros H. exists x. split; [exact H|apply N.eqb_refl].
Qed.

Lemma fk_ok_chunks_have_files (db : Database) :
  file_chunks_fk_ok db = true -> chunks_have_files db.
Proof.
  unfold file_chunks_fk_ok, chunks_have_files, file_exists.
  rewrite forallb_forall. intros H c Hc. specialize (H c Hc).
  apply mem_In, in_map_iff in H. destruct H as [f [E Hf]]. now exists f.
Qed.

Lemma checked_chunks_have_files (db db' : Database) :
  checked db = Some db' -> chunks_have_files db'.
Proof.
  unfold checked. destruct (constraints_ok db) eqn:E; [|discriminate].
  intros H. inversion H; subst. apply fk_ok_chunks_have_files.
  unfold constraints_ok in E.
  repeat (apply andb_prop in E; destruct E as [E ?]). assumption.
Qed.

(** Deleting files keeps every remaining chunk with its file: the chunks
    of the deleted files go with them. *)
Lemma delete_files_chunks_have_files (doomed : files_row -> bool)
    (db db' : Database) :
  chunks_have_files db -> delete_files doomed db = Some db' ->
  chunks_have_files db'.
Proof.
  intros Hinv H. unfold delete_files, referential_delete in H.
  cbn [fk_on_delete file_chunks_file_id_fkey] in H.
  inversion H; subst; clear H. intros c Hc. cbn [file_chunks files] in *.
  apply filter_In in Hc. destruct Hc as [Hc Hm].
  destruct (Hinv c Hc) as [f [Hf E]]. exists f. split; [|exact E].
  apply filter_In. split; [exact Hf|].
  destruct (doomed f) eqn:Ed; [|reflexivity]. exfalso.
  apply negb_true_iff in Hm.
  assert (mem (file_chunks_file_id c) (map files_id (filter doomed (files db)))
          = true) as Hm'.
  { apply mem_In. rewrite <- E. apply in_map. apply filter_In. now split. }
  congruence.
Qed.

Lemma delete_files_removes_chunks (doomed : files_row -> bool)
    (db db' : Database) (f : files_row) (c : file_chunks_row) :
  delete_files doomed db = Some db' ->
  In f (files db) -> ~ In f (files db') ->
  In c (file_chunks db') -> file_chunks_file_id c <> files_id f.
Proof.
  intros H Hf Hgone Hc E. unfold delete_files, referential_delete in H.
  cbn [fk_on_delete file_chunks_file_id_fkey] in H.
  inversion H; subst; clear H. cbn [file_chunks files] in *.
  apply filter_In in Hc. destruct Hc as [_ Hm].
  apply negb_true_iff in Hm.
  assert (doomed f = true) as Hd.
  { destruct (doomed f) eqn:Ed; [reflexivity|]. exfalso. apply Hgone.
    apply filter_In. split; [exact Hf|]. now rewrite Ed. }
  assert (mem (file_chunks_file_id c) (map files_id (filter doomed (files db)))
          = true) as Hm'.
  { apply mem_In. rewrite E. apply in_map. apply filter_In. now split. }
  congruence.
Qed.

Lemma delete_files_total (doomed : files_row -> bool) (db : Database) :
  exists db', delete_files doomed db = Some db'.
Proof.
  unfold delete_files, referential_delete.
  cbn [fk_on_delete file_chunks_file_id_fkey]. eexists. reflexivity.
Qed.

Lemma delete_chats_chunks_have_files (doomed : chats_row -> bool)
    (db db' : Database) :
  chunks_have_files db -> delete_chats doomed db = Some db' ->
  chunks_have_files db'.
Proof.
  intros Hinv H. unfold delete_chats in H.
  destruct (referential_delete messages_chat_id_fkey _ _); [|discriminate].
  cbn [fk_on_delete files_chat_id_fkey] in H.
  destruct (delete_files _ db) as [db1|] eqn:E; [|discriminate].
  inversion H; subst; clear H.
  exact (delete_files_chunks_have_files _ _ _ Hinv E).
Qed.

(** Every statement keeps every chunk with its file. *)
Lemma apply_chunks_have_files (who : Session) (st : Statement)
    (db : Database) :
  chunks_have_files db -> chunks_have_files (apply who st db).
Proof.
  intros Hinv. unfold apply.
  destruct (exec who st db) as [db'|] eqn:E; [|exact Hinv].
  destruct st; cbn [exec] in E;
    try (match type of E with
         | (if ?b then _ else _) = _ => destruct b; [|discriminate]
         end;
         now apply checked_chunks_have_files in E).
  - now apply delete_chats_chunks_have_files in E.
  - inversion E; subst. exact Hinv.
  - now apply delete_files_chunks_have_files in E.
  - inversion E; subst. intros c Hc.
    cbn [file_chunks files with_file_chunks] in *.
    apply filter_In in Hc. destruct Hc as [Hc _]. now apply Hinv.
Qed.

Lemma run_chunks_have_files (script : list (Session * Statement))
    (db : Database) :
  chunks_have_files db -> chunks_have_files (run script db).
Proof.
  revert db. induction script as [|[who st] script IH]; intros db H.
  - exact H.
  - cbn [run fold_left fst snd]. apply IH. now apply apply_chunks_have_files.
Qed.

(** C7. [file_chunks.file_id] is [NOT NULL REFERENCES files(id) ON DELETE
    CASCADE]; a DELETE on [files] always goes through, and once a file row
    is gone no chunk with its identifier is left; and in every database
    reached from the empty one, whoever ran the statements, each chunk has
    its parent file. *)
Theorem file_chunks_follow_their_file
    (who : Session) (where_ : files_row -> bool) (db : Database)
    (f : files_row) (c : file_chunks_row)
    (script : list (Session * Statement)) :
  (fk_on_delete file_chunks_file_id_fkey = Cascade /\
   fk_not_null file_chunks_file_id_fkey = true) /\
  exec who (DeleteFiles where_) db <> None /\
  (In f (files db) ->
   ~ In f (files (apply who (DeleteFiles where_) db)) ->
   In c (file_chunks (apply who (DeleteFiles where_) db)) ->
   file_chunks_file_id c <> files_id f) /\
  chunks_have_files (run script empty).
Proof.
  split; [split; reflexivity|].
  split; [|split].
  - cbn [exec]. destruct (delete_files_total
      (fun r => where_ r && permits db who t_files DELETE (view_file r)) db)
      as [db' ->]. discriminate.
  - unfold apply. cbn [exec].
    destruct (delete_files_total
      (fun r => where_ r && permits db who t_files DELETE (view_file r)) db)
      as [db' E]. rewrite E.
    exact (delete_files_removes_chunks _ db db' f c E).
  - apply run_chunks_have_files. intros x [].
Qed.

(** Without a policy for the command, row level security refuses every
    row of [messages] to a client. *)
Lemma messages_update_refused (db : Database) (who : Session) (r : RowView) :
  bypasses_rls who = false -> permits db who t_messages UPDATE r = false.
Proof. intros H. unfold permits. rewrite H. reflexivity. Qed.

Lemma messages_delete_refused (db : Database) (who : Session) (r : RowView) :
  bypasses_rls who = false -> permits db who t_messages DELETE r = false.
Proof. intros H. unfold permits. rewrite H. reflexivity. Qed.

Lemma chats_delete_refused (db : Database) (who : Session) (r : RowView) :
  bypasses_rls who = false -> permits db who t_chats DELETE r = false.
Proof. intros H. unfold permits. rewrite H. reflexivity. Qed.

Lemma update_rows_none {A} (target : A -> bool) (set : A -> A)
    (rows : list A) :
  (forall r, target r = false) -> update_rows target set rows = rows.
Proof.
  intros H. unfold update_rows. induction rows as [|r rows IH];
    [reflexivity|]. cbn [map]. now rewrite H, IH.
Qed.

Lemma filter_all {A} (p : A -> bool) (rows : list A) :
  (forall r, p r = true) -> filter p rows = rows.
Proof.
  intros H. induction rows as [|r rows IH]; [reflexivity|].
  cbn [filter]. now rewrite H, IH.
Qed.

Lemma filter_none {A} (p : A -> bool) (rows : list A) :
  (forall r, p r = false) -> filter p rows = [].
Proof.
  intros H. induction rows as [|r rows IH]; [reflexivity|].
  cbn [filter]. now rewrite H, IH.
Qed.

Lemma checked_eq (db db' : Database) : checked db = Some db' -> db' = db.
Proof. unfold checked. destruct (constraints_ok db); congruence. Qed.

(** A statement run by a client leaves every message row in place. *)
Lemma apply_keeps_messages (who : Session) (st : Statement) (db : Database)
    (m : messages_row) :
  bypasses_rls who = false ->
  In m (messages db) -> In m (messages (apply who st db)).
Proof.
  intros Hw Hm. unfold apply.
  destruct (exec who st db) as [db'|] eqn:E; [|exact Hm].
  destruct st; cbn [exec] in E;
    try (match type of E with
         | (if ?b then _ else _) = _ => destruct b; [|discriminate]
         end;
         apply checked_eq in E; subst db'; cbn [messages with_chats with_files
           with_file_chunks with_messages]).
  - exact Hm.
  - exact Hm.
  - unfold delete_chats, referential_delete in E.
    cbn [fk_on_delete messages_chat_id_fkey files_chat_id_fkey] in E.
    rewrite filter_none in E by
      (intros r; rewrite chats_delete_refused by exact Hw;
       apply andb_false_r).
    destruct (delete_files _ db) as [db1|]; [|discriminate].
    inversion E; subst; clear E. cbn [messages].
    rewrite filter_all; [exact Hm|]. reflexivity.
  - apply in_or_app. now left.
  - rewrite update_rows_none; [exact Hm|].
    intros r. rewrite messages_update_refused by exact Hw. apply andb_false_r.
  - inversion E; subst. cbn [messages with_messages].
    rewrite filter_all; [exact Hm|].
    intros r. rewrite messages_delete_refused by exact Hw.
    now rewrite andb_false_r.
  - exact Hm.
  - exact Hm.
  - unfold delete_files, referential_delete in E.
    cbn [fk_on_delete file_chunks_file_id_fkey] in E.
    inversion E; subst. exact Hm.
  - exact Hm.
  - exact Hm.
  - inversion E; subst. exact Hm.
Qed.

(** The service role is not held back: when it deletes a chat, the
    messages of the chat go with it ([messages.chat_id] is ON DELETE
    CASCADE). *)
Lemma service_role_delete_cascades :
  messages (apply ServiceRole (DeleteChats (fun _ => true)) Sample.database)
  = [].
Proof. reflexivity. Qed.

Lemma run_keeps_messages (script : list (Session * Statement))
    (db : Database) (m : messages_row) :
  Forall (fun p => bypasses_rls (fst p) = false) script ->
  In m (messages db) -> In m (messages (run script db)).
Proof.
  revert db. induction script as [|[who st] script IH]; intros db Hs Hm.
  - exact Hm.
  - inversion Hs; subst. cbn [run fold_left fst snd]. apply IH; [assumption|].
    now apply apply_keeps_messages.
Qed.

(** C8. Row level security is enabled on [messages] and its only policies
    are for SELECT and INSERT; whatever statements clients run (sessions
    that do not bypass row level security), a message row that is in the
    table stays in it as it is, with its role and its content. *)
Theorem messages_are_immutable_for_clients
    (script : list (Session * Statement)) (db : Database)
    (m : messages_row) :
  Forall (fun p => bypasses_rls (fst p) = false) script ->
  In m (messages db) ->
  In t_messages row_level_security /\
  policies_on t_messages = [SELECT; INSERT] /\
  In m (messages (run script db)).
Proof.
  intros Hs Hm. split; [|split].
  - cbn. tauto.
  - reflexivity.
  - now apply run_keeps_messages.
Qed.

End Schema.

(* ===================================================================== *)
(** * The admin file listing                                             *)
(* ===================================================================== *)

Section AdminRoute.

Import AdminFiles.

Lemma role_is_not_admin_true (profile : option Profile) :
  (forall p, profile = Some p -> role p <> Some (str "admin")) ->
  role_is_not_admin profile = true.
Proof.
  intros H. unfold role_is_not_admin.
  destruct profile as [p|]; [|reflexivity].
  specialize (H p eq_refl). destruct (role p) as [r|]; [|reflexivity].
  destruct (streq r (str "admin")) eqn:E; [|reflexivity].
  apply streq_true_iff in E. now subst.
Qed.

Lemma role_is_not_admin_false (profile : option Profile) :
  role_is_not_admin profile = false ->
  exists p, profile = Some p /\ role p = Some (str "admin").
Proof.
  unfold role_is_not_admin. destruct profile as [p|]; [|discriminate].
  destruct (role p) as [r|] eqn:Er; [|discriminate]. intros H.
  apply negb_false_iff, streq_true_iff in H. subst. now exists p.
Qed.

(** C10. [GET] answers 401 when the Authorization header is absent (or
    empty) or [getUser] reports an error or no user for it, 403 when the
    verified user's profile does not have role ['admin'], and the file list
    (with status 200) exactly when the requester is a verified admin and the
    file query succeeds. *)
Theorem admin_files_requires_verified_admin
    (supabase : Supabase) (request : NextRequest) :
  ((authorization request = None \/ authorization request = Some []) ->
   status (GET supabase request) = 401%N) /\
  (forall authHeader r,
     authorization request = Some authHeader -> authHeader <> [] ->
     auth_getUser supabase (replace (str "Bearer ") [] authHeader)
       = Resolves r ->
     (authError r <> None \/ user r = None) ->
     status (GET supabase request) = 401%N) /\
  (forall authHeader u profile,
     authorization request = Some authHeader -> authHeader <> [] ->
     auth_getUser supabase (replace (str "Bearer ") [] authHeader)
       = Resolves {| user := Some u; authError := None |} ->
     select_profile_role supabase (user_id u) = Resolves profile ->
     (forall p, profile = Some p -> role p <> Some (str "admin")) ->
     status (GET supabase request) = 403%N) /\
  (forall files,
     json (GET supabase request) = FilesJson files ->
     verified_admin supabase request /\
     status (GET supabase request) = 200%N) /\
  (forall fr,
     verified_admin supabase request ->
     select_user_files supabase = Resolves fr -> error fr = None ->
     GET supabase request
     = {| status := 200; json := FilesJson (or_nil (AdminFiles.files fr)) |}).
Proof.
  repeat split.
  - intros [H|H]; unfold GET; now rewrite H.
  - intros authHeader r Hh Hne Hg Hbad. unfold GET. rewrite Hh.
    destruct authHeader as [|c t]; [contradiction|]. cbn [is_empty].
    rewrite Hg. destruct Hbad as [Hbad|Hbad].
    + destruct (authError r); [reflexivity|contradiction].
    + rewrite Hbad. now destruct (authError r).
  - intros authHeader u profile Hh Hne Hg Hp Hrole. unfold GET. rewrite Hh.
    destruct authHeader as [|c t]; [contradiction|]. cbn [is_empty].
    rewrite Hg. cbn [authError user]. rewrite Hp.
    now rewrite role_is_not_admin_true.
  - revert H. unfold GET, verified_admin.
    destruct (authorization request) as [[|c t]|]; try discriminate.
    cbn [is_empty].
    destruct (auth_getUser supabase _) as [[[u|] [e|]]|] eqn:Eg;
      try discriminate.
    cbn [authError user].
    destruct (select_profile_role supabase (user_id u)) as [profile|] eqn:Ep;
      try discriminate.
    destruct (role_is_not_admin profile) eqn:Er; try discriminate.
    apply role_is_not_admin_false in Er. destruct Er as [p [-> Hr]].
    intros _. exists (c :: t), u, p. repeat split; try assumption.
    discriminate.
  - revert H. unfold GET.
    destruct (authorization request) as [[|c t]|]; try discriminate.
    cbn [is_empty].
    destruct (auth_getUser supabase _) as [[[u|] [e|]]|]; try discriminate.
    cbn [authError user].
    destruct (select_profile_role supabase (user_id u)) as [profile|];
      try discriminate.
    destruct (role_is_not_admin profile); try discriminate.
    destruct (select_user_files supabase) as [fr|]; try discriminate.
    destruct (error fr); try discriminate. reflexivity.
  - intros fr [authHeader [u [p [Hh [Hne [Hg [Hp Hr]]]]]]] Hf He.
    unfold GET. rewrite Hh.
    destruct authHeader as [|c t]; [contradiction|]. cbn [is_empty].
    rewrite Hg. cbn [authError user]. rewrite Hp.
    unfold role_is_not_admin. rewrite Hr, streq_refl. cbn [negb].
    now rewrite Hf, He.
Qed.

End AdminRoute.

(* ===================================================================== *)
(** * The theorems at sample inputs                                      *)
(* ===================================================================== *)

(** C1 at [Sample.state]: the stream [Sample.reads1] succeeds and leaves
    the assistant message "Hello". *)
Lemma handleSend_content_witness :
  is_empty (trim (Chat.input Sample.state)) = false /\
  Chat.isStreaming Sample.state = false /\
  Chat.messages
    (fst (Chat.handleSend (R := Sample.runtime) Sample.fetch1 Sample.props
            Sample.clock Sample.state))
  = [ {| Chat.id := str "1700000000000"; Chat.role := Chat.user;
         Chat.content := str "Hi"; Chat.timestamp := 1700000000000 |};
      {| Chat.id := str "1700000000002"; Chat.role := Chat.assistant;
         Chat.content := str "Hello"; Chat.timestamp := 1700000000001 |} ].
Proof.
  split; [reflexivity|]. split; [reflexivity|].
  rewrite (proj1 (handleSend_content_is_concatenation (R := Sample.runtime)
                    Sample.fetch1 Sample.props Sample.clock Sample.state
                    {| Api.chunks := Sample.reads1; Api.ending := Api.Closed |}
                    eq_refl eq_refl eq_refl
                    (fun e H =>
                       eq_ind (Gen.Return (A := unit))
                         (fun c =>
                            match c with Gen.Return => True | _ => False end)
                         I (Gen.Throw e) H))).
  vm_compute. reflexivity.
Defined.

(** C2 at [Sample.text1]: what follows [[DONE]] changes nothing. *)
Lemma stream_yields_witness :
  Sse.has_done
    (Sse.frames (Sse.decode_all (R := Sample.runtime)
                   (List.concat Sample.reads1))) = true /\
  Api.yields
    (Api.streamChatMessage (R := Sample.runtime)
       (Api.answering
          (Api.streaming
             (Sample.reads1
              ++ [Sample.bytes Sample.late_event])
             Api.Closed)) [] [] [] [])
  = Api.yields
      (Api.streamChatMessage (R := Sample.runtime)
         (Api.answering (Api.streaming Sample.reads1 Api.Closed))
         [] [] [] []).
Proof.
  split; [vm_compute; reflexivity|].
  refine (proj2 (proj2 (proj2
            (stream_yields_nonempty_content_before_done
               (R := Sample.runtime) Sample.config Sample.provider 0
               Sample.store (str "c1") (str "u1") (str "Hi") []
               [] [] [] [] Sample.reads1
               [Sample.bytes Sample.late_event]
               Api.Closed))) _).
  vm_compute. reflexivity.
Defined.

(** C3 at the error frame of [Sample.text1]. *)
Lemma error_frame_witness :
  Sse.frame_of (str Sample.error_line)
    = Some (str Sample.error_payload) /\
  Sse.error_field (R := Sample.runtime) (str Sample.error_payload)
    = Some (str "upstream") /\
  Sse.is_done (str Sample.error_payload) = false /\
  Api.process_line (R := Sample.runtime) (str Sample.error_line)
    = ([], Gen.Normal tt) /\
  Api.completion
    (Api.streamChatMessage (R := Sample.runtime)
       (Api.answering (Api.streaming Sample.reads1 Api.Closed)) [] [] [] [])
  <> Gen.Throw (Error (str "upstream")).
Proof.
  split; [reflexivity|]. split; [reflexivity|]. split; [reflexivity|].
  pose proof (error_frame_is_swallowed (R := Sample.runtime)
                (str Sample.error_line)
                (str Sample.error_payload) (str "upstream")
                [str "data: [DONE]"] Sample.reads1 [] [] [] []
                eq_refl eq_refl eq_refl) as [[H1 _] [_ H2]].
  split; [exact H1|apply H2].
Defined.

(** C4 at a response with [ok = false] whose body holds [Sample.reads1]:
    none of it is read. *)
Lemma not_ok_witness :
  Api.ok Sample.refused = false /\
  Api.streamChatMessage (R := Sample.runtime) Sample.fetch_refused
    (str "c1") (str "Hi") (str "u1") []
  = {| Api.yields := [];
       Api.completion := Gen.Throw (Error (str "Failed to send message"));
       Api.reads := 0;
       Api.released := false |}.
Proof.
  split; [reflexivity|].
  apply (streamChatMessage_not_ok_throws_upfront (R := Sample.runtime)
           Sample.fetch_refused (str "c1") (str "Hi") (str "u1") []
           Sample.refused eq_refl eq_refl).
Defined.

(** C5 at a message of three spaces. *)
Lemma blank_message_witness :
  trim (str "   ") = [] /\
  Relay.send_message Sample.config Sample.provider 0 Sample.store
    (str "c1") (str "u1") (str "   ") [str "f1"]
  = (Relay.Failure Relay.InvalidArgument, Sample.store) /\
  Chat.handleSend (R := Sample.runtime) Sample.fetch1 Sample.props
    Sample.clock Sample.blank_state
  = (Sample.blank_state, None).
Proof.
  pose proof (blank_message_is_refused (R := Sample.runtime) Sample.config
                Sample.provider 0 Sample.store (str "c1") (str "u1")
                (str "   ") [str "f1"] Sample.fetch1 Sample.props
                Sample.clock Sample.blank_state) as [H1 H2].
  split; [reflexivity|]. split; [apply H1|apply H2]; reflexivity.
Defined.

(** The relay at [Sample.store]: [f2] belongs to another user and adds
    nothing to the excerpts of [u1]. *)
Lemma relay_drops_other_users_file :
  Relay.excerpts Sample.store (str "u1") ([str "f1"] ++ str "f2" :: [])
  = Relay.excerpts Sample.store (str "u1") ([str "f1"] ++ []).
Proof.
  apply (relay_drops_invalid_file_ids Sample.config Sample.provider 0
           Sample.store (str "c1") (str "u1") (str "Hi") (str "f2")
           [str "f1"] []).
  intros f [<-|[<-|[]]]; cbn; intros Hid Ho; discriminate.
Qed.

(** C7 at [Sample.database]: user 1 deletes the file, its chunk goes. *)
Lemma file_chunks_witness :
  In Sample.file1 (Db.files Sample.database) /\
  ~ In Sample.file1
      (Db.files (Db.apply (Db.Authenticated 1%N)
                   (Db.DeleteFiles (fun _ => true)) Sample.database)) /\
  Db.file_chunks (Db.apply (Db.Authenticated 1%N)
                    (Db.DeleteFiles (fun _ => true)) Sample.database) = [] /\
  (In Sample.chunk1
      (Db.file_chunks (Db.apply (Db.Authenticated 1%N)
                         (Db.DeleteFiles (fun _ => true)) Sample.database)) ->
   Db.file_chunks_file_id Sample.chunk1 <> Db.files_id Sample.file1).
Proof.
  split; [now left|]. split; [intros []|]. split; [reflexivity|].
  apply (proj1 (proj2 (proj2
           (file_chunks_follow_their_file (Db.Authenticated 1%N)
              (fun _ => true) Sample.database Sample.file1 Sample.chunk1
              [])))).
  - now left.
  - intros [].
Defined.

(** C8 at [Sample.database]: after the three attempts of user 1 and one of
    an anonymous client the message is still there. *)
Lemma messages_immutable_witness :
  Forall (fun p => Db.bypasses_rls (fst p) = false) Sample.tampering /\
  In Sample.message1 (Db.messages Sample.database) /\
  In Sample.message1 (Db.messages (Db.run Sample.tampering Sample.database)).
Proof.
  assert (H1 : Forall (fun p => Db.bypasses_rls (fst p) = false)
                 Sample.tampering) by (repeat constructor).
  assert (H2 : In Sample.message1 (Db.messages Sample.database))
    by (now left).
  split; [exact H1|]. split; [exact H2|].
  apply (messages_are_immutable_for_clients Sample.tampering Sample.database
           Sample.message1 H1 H2).
Defined.

(** C8 as stated fails for a session that bypasses row level security:
    the service role, through which the relay serves the client's
    [deleteChat], deletes chat 1 of [Sample.database], and the message of
    that chat goes with it ([messages.chat_id] is ON DELETE CASCADE); so a
    message is not kept by every statement of every session. *)
Lemma service_role_chat_deletion_removes_messages :
  Db.bypasses_rls Db.ServiceRole = true /\
  In Sample.message1 (Db.messages Sample.database) /\
  ~ In Sample.message1
      (Db.messages
         (Db.run [(Db.ServiceRole,
                   Db.DeleteChats (fun c => N.eqb (Db.chats_id c) 1))]
            Sample.database)) /\
  ~ (forall (script : list (Db.Session * Db.Statement)) (db : Db.Database)
            (m : Db.messages_row),
       In m (Db.messages db) -> In m (Db.messages (Db.run script db))).
Proof.
  split; [reflexivity|]. split; [now left|]. split.
  - intros [].
  - intros H.
    apply (H [(Db.ServiceRole,
               Db.DeleteChats (fun c => N.eqb (Db.chats_id c) 1))]
             Sample.database Sample.message1).
    now left.
Qed.

(** C9 at [Sample.text1], read in three pieces and in one. *)
Lemma partition_witness :
  List.concat Sample.reads1 = List.concat [Sample.bytes Sample.text1] /\
  Api.yields
    (Api.streamChatMessage (R := Sample.runtime)
       (Api.answering (Api.streaming Sample.reads1 Api.Closed)) [] [] [] [])
  = Api.yields
      (Api.streamChatMessage (R := Sample.runtime)
         (Api.answering
            (Api.streaming [Sample.bytes Sample.text1] Api.Closed))
         [] [] [] []).
Proof.
  assert (H : List.concat Sample.reads1
              = List.concat [Sample.bytes Sample.text1])
    by (vm_compute; reflexivity).
  split; [exact H|].
  apply (streamChatMessage_partition_insensitive (R := Sample.runtime)
           [] [] [] [] Sample.reads1 [Sample.bytes Sample.text1] Api.Closed H).
Defined.

(** C10 at a signed-in user who is not an admin, and at no header. *)
Lemma admin_files_witness :
  AdminFiles.status
    (AdminFiles.GET (Sample.supabase "user")
       (Sample.request (Some "Bearer token-u1"%string))) = 403%N /\
  AdminFiles.status
    (AdminFiles.GET (Sample.supabase "user") (Sample.request None)) = 401%N.
Proof.
  split.
  - apply (proj1 (proj2 (proj2
             (admin_files_requires_verified_admin (Sample.supabase "user")
                (Sample.request (Some "Bearer token-u1"%string)))))
             (str "Bearer token-u1") {| AdminFiles.user_id := str "u1" |}
             (Some {| AdminFiles.role := Some (str "user") |})
             eq_refl).
    + discriminate.
    + reflexivity.
    + reflexivity.
    + intros p Hp. inversion Hp; subst. cbn. discriminate.
  - apply (proj1 (admin_files_requires_verified_admin (Sample.supabase "user")
                    (Sample.request None))).
    now left.
Defined.

(* ===================================================================== *)
(** * More on [streamChatMessage]: reads, tails and skipped lines        *)
(* ===================================================================== *)

Section StreamMore.
Context {R : Runtime}.

Import Gen.

Lemma tail_no_newline (s : jsstring) :
  ~ In newline (last (split newline s) []).
Proof.
  pose proof (split_segments newline s) as HF.
  pose proof (split_not_nil newline s) as Hn.
  destruct (exists_last Hn) as [init [x E]]. rewrite E in *.
  rewrite last_last. apply Forall_app in HF. destruct HF as [_ HF].
  now inversion HF.
Qed.

Lemma complete_lines_no_newline (s : jsstring) :
  ~ In newline s -> Sse.complete_lines s = [].
Proof.
  intros H. unfold Sse.complete_lines. now rewrite split_no_sep.
Qed.

Lemma decode_all_snoc (reads : list (list byte)) (last_read : list byte) :
  Sse.decode_all (List.concat (reads ++ [last_read]))
  = Sse.decode_all (List.concat reads)
    ++ snd (Api.decode (fst (Api.decode decoder_new (List.concat reads)))
              last_read).
Proof.
  unfold Sse.decode_all. rewrite concat_app. cbn [List.concat].
  rewrite app_nil_r, decode_app.
  destruct (Api.decode decoder_new (List.concat reads)) as [st1 o1].
  cbn [fst snd]. now destruct (Api.decode st1 last_read).
Qed.

Lemma yields_are_lines_yields
    (chatId message userId : jsstring) (fileIds : list jsstring)
    (reads : list (list byte)) (fin : Api.ReadEnd) :
  Api.yields
    (Api.streamChatMessage (Api.answering (Api.streaming reads fin))
       chatId message userId fileIds)
  = Sse.lines_yields
      (Sse.complete_lines (Sse.decode_all (List.concat reads))).
Proof.
  now destruct (stream_answering chatId message userId fileIds reads fin).
Qed.

(** X1. Reading on never takes back what was yielded: the yields after the
    reads [reads] are a prefix of the yields after [reads ++ more]. *)
Theorem yields_grow_with_reads
    (chatId message userId : jsstring) (fileIds : list jsstring)
    (reads more : list (list byte)) (fin fin' : Api.ReadEnd) :
  exists rest,
    Api.yields
      (Api.streamChatMessage
         (Api.answering (Api.streaming (reads ++ more) fin'))
         chatId message userId fileIds)
    = Api.yields
        (Api.streamChatMessage (Api.answering (Api.streaming reads fin))
           chatId message userId fileIds)
      ++ rest.
Proof.
  rewrite !yields_are_lines_yields, concat_app.
  destruct (decode_all_app (List.concat reads) (List.concat more))
    as [text ->].
  rewrite complete_lines_app, lines_yields_app.
  destruct (Sse.has_done _).
  - exists []. now rewrite app_nil_r.
  - eexists. reflexivity.
Qed.

(** X2. A last read without a line feed is lost: what it holds stays in
    the buffer and the generator ends as if the read had been empty. *)
Theorem unterminated_tail_is_dropped
    (chatId message userId : jsstring) (fileIds : list jsstring)
    (reads : list (list byte)) (last_read : list byte) (fin : Api.ReadEnd) :
  ~ In newline
      (snd (Api.decode (fst (Api.decode decoder_new (List.concat reads)))
              last_read)) ->
  let run rs :=
    Api.streamChatMessage (Api.answering (Api.streaming rs fin))
      chatId message userId fileIds in
  Api.yields (run (reads ++ [last_read])) = Api.yields (run reads) /\
  Api.completion (run (reads ++ [last_read])) = Api.completion (run reads).
Proof.
  intros Hno. cbn zeta.
  destruct (stream_answering chatId message userId fileIds
              (reads ++ [last_read]) fin) as [Hy Hc].
  destruct (stream_answering chatId message userId fileIds reads fin)
    as [Hy' Hc'].
  rewrite Hy, Hc, Hy', Hc'. unfold Sse.frames.
  rewrite decode_all_snoc, complete_lines_app.
  rewrite (complete_lines_no_newline (_ ++ _)).
  - rewrite app_nil_r. split; reflexivity.
  - intros Hin. apply in_app_or in Hin. destruct Hin as [Hin|Hin].
    + exact (tail_no_newline _ Hin).
    + exact (Hno Hin).
Qed.

(** X3. Whatever the network does, the generator never yields the empty
    string. *)
Theorem yields_are_never_empty
    (fetch : Api.Request -> Api.FetchResult)
    (chatId message userId : jsstring) (fileIds : list jsstring) :
  Forall (fun chunk => chunk <> [])
    (Api.yields (Api.streamChatMessage fetch chatId message userId fileIds)).
Proof.
  destruct (fetch (Api.mkRequest chatId message userId fileIds))
    as [e|[[|] [b|]]] eqn:Ef;
    try (unfold Api.streamChatMessage; rewrite Ef; constructor).
  destruct (stream_of_text fetch chatId message userId fileIds b Ef)
    as [Hy _].
  rewrite Hy. apply Forall_forall. intros x Hx.
  apply filter_In in Hx. destruct Hx as [_ Hx]. now destruct x.
Qed.

(** The number of [read()] calls when [[DONE]] is within the first reads. *)
Lemma read_loop_stops_at_done (pre post : list (list byte))
    (fin : Api.ReadEnd) :
  forall (decoder : DecoderState) (buffer : jsstring),
    Sse.complete_lines buffer = [] ->
    Sse.has_done
      (Sse.frames_of_lines
         (Sse.complete_lines
            (buffer ++ snd (Api.decode decoder (List.concat pre))))) = true ->
    snd (Api.read_loop (pre ++ post) fin decoder buffer) <= List.length pre.
Proof.
  induction pre as [|value pre IH]; intros decoder buffer Hb Hd.
  - cbn [List.concat Api.decode snd] in Hd. rewrite app_nil_r, Hb in Hd.
    discriminate.
  - cbn [app Api.read_loop List.length]. cbn [List.concat] in Hd.
    rewrite decode_app in Hd.
    destruct (Api.decode decoder value) as [decoder' chunk].
    rewrite pop_split, or_else_empty.
    destruct (Api.decode decoder' (List.concat pre)) as [st2 rest] eqn:Ed.
    cbn [snd] in Hd.
    rewrite app_assoc, complete_lines_app, frames_of_lines_app, has_done_app
      in Hd.
    fold (Sse.complete_lines (buffer ++ chunk)). rewrite for_of_lines.
    destruct (Sse.has_done (Sse.frames_of_lines
                (Sse.complete_lines (buffer ++ chunk)))).
    + cbn [snd]. lia.
    + cbn [orb] in Hd.
      specialize (IH decoder' (last (split newline (buffer ++ chunk)) [])
                    (tail_has_no_line _)).
      rewrite Ed in IH. specialize (IH Hd).
      destruct (Api.read_loop (pre ++ post) fin decoder' _) as [[ys c] n].
      cbn [snd] in *. lia.
Qed.

Lemma read_loop_reads_bound (pending : list (list byte)) (fin : Api.ReadEnd) :
  forall (decoder : DecoderState) (buffer : jsstring),
    1 <= snd (Api.read_loop pending fin decoder buffer)
    /\ snd (Api.read_loop pending fin decoder buffer)
       <= S (List.length pending).
Proof.
  induction pending as [|value pending IH]; intros decoder buffer.
  - cbn. destruct fin; cbn; lia.
  - cbn [Api.read_loop List.length].
    destruct (Api.decode decoder value) as [decoder' chunk].
    destruct (pop _) as [lst lines].
    destruct (for_of lines Api.process_line) as [ys [[]| | |e]];
      try (cbn [snd]; lia);
      specialize (IH decoder' (or_else lst []));
      destruct (Api.read_loop pending fin decoder' _) as [[ys' c] n];
      cbn [snd] in *; lia.
Qed.

(** X4. Reading stops at [[DONE]]: for an ok response with a body, when
    the first reads [pre] hold a [[DONE]] frame at most [length pre] calls
    of [read()] are made, however many reads would follow, and the calls
    number between one and the reads of the body plus one. Whatever the
    network does, the reader's lock is released exactly in the runs that
    called [read()]; a run that did not (the request was rejected or
    refused, or the response has no body) yields nothing and throws. *)
Theorem reading_stops_at_done
    (fetch : Api.Request -> Api.FetchResult)
    (chatId message userId : jsstring) (fileIds : list jsstring)
    (pre post : list (list byte)) (fin : Api.ReadEnd) :
  let run :=
    Api.streamChatMessage (Api.answering (Api.streaming (pre ++ post) fin))
      chatId message userId fileIds in
  let any := Api.streamChatMessage fetch chatId message userId fileIds in
  (Sse.has_done (Sse.frames (Sse.decode_all (List.concat pre))) = true ->
   Api.reads run <= List.length pre) /\
  1 <= Api.reads run <= S (List.length (pre ++ post)) /\
  (Api.released any = true <-> 1 <= Api.reads any) /\
  (Api.reads any = 0 ->
   Api.yields any = [] /\ exists e, Api.completion any = Throw e).
Proof.
  cbn zeta. split; [|split].
  - unfold Api.streamChatMessage, Api.answering, Api.streaming.
    cbn [Api.ok Api.body negb Api.chunks Api.ending].
    pose proof (read_loop_stops_at_done pre post fin decoder_new [] eq_refl)
      as H1.
    destruct (Api.read_loop (pre ++ post) fin decoder_new []) as [[ys c] n].
    exact H1.
  - unfold Api.streamChatMessage, Api.answering, Api.streaming.
    cbn [Api.ok Api.body negb Api.chunks Api.ending].
    pose proof (read_loop_reads_bound (pre ++ post) fin decoder_new [])
      as H2.
    destruct (Api.read_loop (pre ++ post) fin decoder_new []) as [[ys c] n].
    exact H2.
  - unfold Api.streamChatMessage.
    destruct (fetch _) as [e|response].
    { cbn. split; [split; [intros H; discriminate|lia]|eauto]. }
    destruct (Api.ok response); cbn [negb].
    2:{ cbn. split; [split; [intros H; discriminate|lia]|eauto]. }
    destruct (Api.body response) as [b|].
    2:{ cbn. split; [split; [intros H; discriminate|lia]|eauto]. }
    pose proof (read_loop_reads_bound (Api.chunks b) (Api.ending b)
                  decoder_new []) as H2.
    destruct (Api.read_loop (Api.chunks b) (Api.ending b) decoder_new [])
      as [[ys c] n].
    cbn [snd Api.reads Api.released Api.yields Api.completion] in *.
    split; [split; [intros _; lia|reflexivity]|lia].
Qed.

(** X5. Blank lines, comment and [event:] lines, payloads that are not
    JSON, [null], and JSON values without a content field are skipped
    without a trace: the loop over the lines gives the same yields and the
    same completion with such a line as without it. *)
Theorem silent_lines_are_skipped
    (before after : list jsstring) (line : jsstring) :
  Lines.silent line ->
  for_of (before ++ line :: after) Api.process_line
  = for_of (before ++ after) Api.process_line.
Proof.
  intros Hs. rewrite !for_of_lines. unfold Sse.lines_yields.
  rewrite !frames_of_lines_app. cbn [Sse.frames_of_lines].
  destruct Hs as [Hn|[data [Hf [Hd Hc]]]].
  - now rewrite Hn.
  - rewrite Hf, !before_done_app, !has_done_app.
    cbn [Sse.before_done Sse.has_done existsb]. rewrite Hd. cbn [orb].
    destruct (Sse.has_done (Sse.frames_of_lines before)); [reflexivity|].
    rewrite !content_fields_app. cbn [Sse.content_fields]. now rewrite Hc.
Qed.

End StreamMore.

(* ===================================================================== *)
(** * More on [handleSend]: the failure path and what is left alone      *)
(* ===================================================================== *)

Section HandleSendMore.
Context {R : Runtime}.

Import Gen.

Lemma handleSend_sent
    (fetch : Api.Request -> Api.FetchResult) (props : Chat.Props)
    (clock : Chat.Clock) (st : Chat.State) :
  is_empty (trim (Chat.input st)) = false ->
  Chat.isStreaming st = false ->
  let run :=
    Api.streamChatMessage fetch (Chat.chatId props) (Chat.input st)
      (Chat.userId props) (Chat.selectedFiles props) in
  Chat.handleSend fetch props clock st
  = ({| Chat.messages :=
          Chat.messages st
          ++ [ {| Chat.id := Chat.toString (Chat.now_user clock);
                  Chat.role := Chat.user;
                  Chat.content := Chat.input st;
                  Chat.timestamp := Chat.date_user clock |};
               {| Chat.id := Chat.toString (Chat.now_assistant clock + 1);
                  Chat.role := Chat.assistant;
                  Chat.content :=
                    match Api.completion run with
                    | Throw _ => Chat.sorry
                    | _ => List.concat (Api.yields run)
                    end;
                  Chat.timestamp := Chat.date_assistant clock |} ];
        Chat.input := [];
        Chat.isStreaming := false |},
     Some run).
Proof.
  intros Hin Hst run. unfold Chat.handleSend. rewrite Hin, Hst. cbn [orb].
  fold run. rewrite consume_concat by reflexivity.
  cbn [app Chat.with_content Chat.id Chat.role Chat.timestamp].
  destruct (Api.completion run) as [[]| | |e];
    try (rewrite <- app_assoc; reflexivity).
  rewrite set_last_content_assistant by reflexivity.
  cbn [Chat.with_content Chat.id Chat.role Chat.timestamp].
  rewrite <- app_assoc. reflexivity.
Qed.

(** X6. When the generator throws (the request is rejected or refused,
    the response has no body, or the reader fails), the assistant message
    reads ['Sorry, there was an error processing your request.'] whatever
    had been streamed before the failure; the user message stays and the
    streaming flag is cleared. *)
Theorem handleSend_failure_shows_apology
    (fetch : Api.Request -> Api.FetchResult) (props : Chat.Props)
    (clock : Chat.Clock) (st : Chat.State) (e : JsError) :
  is_empty (trim (Chat.input st)) = false ->
  Chat.isStreaming st = false ->
  Api.completion
    (Api.streamChatMessage fetch (Chat.chatId props) (Chat.input st)
       (Chat.userId props) (Chat.selectedFiles props)) = Throw e ->
  fst (Chat.handleSend fetch props clock st)
  = {| Chat.messages :=
         Chat.messages st
         ++ [ {| Chat.id := Chat.toString (Chat.now_user clock);
                 Chat.role := Chat.user;
                 Chat.content := Chat.input st;
                 Chat.timestamp := Chat.date_user clock |};
              {| Chat.id := Chat.toString (Chat.now_assistant clock + 1);
                 Chat.role := Chat.assistant;
                 Chat.content := Chat.sorry;
                 Chat.timestamp := Chat.date_assistant clock |} ];
       Chat.input := [];
       Chat.isStreaming := false |}.
Proof.
  intros Hin Hst He. rewrite handleSend_sent by assumption.
  cbn [fst]. now rewrite He.
Qed.


End HandleSendMore.

(* ===================================================================== *)
(** * More on the selection: toggling and duplicates                     *)
(* ===================================================================== *)

Section SelectionMore.

Lemma includes_In (l : list jsstring) (x : jsstring) :
  Selection.includes l x = true <-> In x l.
Proof.
  unfold Selection.includes. rewrite existsb_exists. split.
  - intros [y [Hy E]]. apply streq_true_iff in E. now subst.
  - intros H. exists x. split; [exact H|apply streq_refl].
Qed.

Lemma includes_false (l : list jsstring) (x : jsstring) :
  Selection.includes l x = false <-> ~ In x l.
Proof.
  rewrite <- includes_In. destruct (Selection.includes l x); split;
    congruence.
Qed.

Lemma filter_others_In (f x : jsstring) (l : list jsstring) :
  In x (filter (fun id => negb (streq id f)) l) <-> In x l /\ x <> f.
Proof.
  rewrite filter_In. split; intros [H1 H2]; split; try assumption.
  - intros ->. now rewrite streq_refl in H2.
  - destruct (streq x f) eqn:E; [|reflexivity].
    apply streq_true_iff in E. contradiction.
Qed.

Lemma handleFileSelect_spec (f x : jsstring) (prev : list jsstring) :
  In x (Selection.handleFileSelect f prev)
  <-> (In x prev /\ x <> f) \/ (x = f /\ ~ In f prev).
Proof.
  unfold Selection.handleFileSelect.
  destruct (Selection.includes prev f) eqn:E.
  - apply includes_In in E. rewrite filter_others_In. split.
    + now left.
    + intros [H|[_ H]]; [exact H|contradiction].
  - apply includes_false in E. rewrite in_app_iff. cbn [In]. split.
    + intros [H|[<-|[]]].
      * left. split; [exact H|]. intros ->. contradiction.
      * now right.
    + intros [[H _]|[-> _]]; [now left|right; now left].
Qed.

Lemma filter_others_id (f : jsstring) (l : list jsstring) :
  ~ In f l -> filter (fun id => negb (streq id f)) l = l.
Proof.
  intros H. induction l as [|y l IH]; [reflexivity|]. cbn [filter].
  destruct (streq y f) eqn:E.
  - apply streq_true_iff in E. subst. exfalso. apply H. now left.
  - cbn [negb]. rewrite IH; [reflexivity|]. intros Hin. apply H. now right.
Qed.

(** X8. [handleFileSelect] toggles membership and nothing else: after it an
    identifier is selected exactly when it was selected and is not the
    toggled one, or is the toggled one and was not selected. Toggling the
    same file twice gives back the same selected set, and the very same
    list when the file was not selected at first. *)
Theorem handleFileSelect_toggles
    (fileId x : jsstring) (prev : list jsstring) :
  (In x (Selection.handleFileSelect fileId prev)
   <-> (In x prev /\ x <> fileId) \/ (x = fileId /\ ~ In fileId prev)) /\
  (In x (Selection.handleFileSelect fileId
           (Selection.handleFileSelect fileId prev)) <-> In x prev) /\
  (~ In fileId prev ->
   Selection.handleFileSelect fileId (Selection.handleFileSelect fileId prev)
   = prev).
Proof.
  split; [apply handleFileSelect_spec|]. split.
  - rewrite handleFileSelect_spec, !handleFileSelect_spec.
    destruct (list_eq_dec N.eq_dec x fileId) as [->|Hne].
    + destruct (in_dec (list_eq_dec N.eq_dec) fileId prev) as [Hi|Hni];
        split; try tauto.
    + tauto.
  - intros Hni. unfold Selection.handleFileSelect at 2.
    apply includes_false in Hni. rewrite Hni.
    unfold Selection.handleFileSelect.
    assert (Hin : Selection.includes (prev ++ [fileId]) fileId = true).
    { apply includes_In, in_or_app. right. now left. }
    rewrite Hin, filter_app. cbn [filter]. rewrite streq_refl. cbn [negb].
    rewrite app_nil_r. apply filter_others_id. now apply includes_false.
Qed.

Lemma NoDup_filter {A} (p : A -> bool) (l : list A) :
  NoDup l -> NoDup (filter p l).
Proof.
  induction 1 as [|x l Hx Hl IH]; cbn [filter]; [constructor|].
  destruct (p x); [|exact IH]. constructor; [|exact IH].
  intros Hin. apply filter_In in Hin. now destruct Hin.
Qed.

Lemma NoDup_snoc {A} (l : list A) (x : A) :
  NoDup l -> ~ In x l -> NoDup (l ++ [x]).
Proof.
  intros Hl Hx. induction Hl as [|y l Hy Hl IH]; cbn [app].
  - constructor; [intros []|constructor].
  - constructor.
    + intros Hin. apply in_app_or in Hin. destruct Hin as [Hin|[->|[]]].
      * contradiction.
      * apply Hx. now left.
    + apply IH. intros Hin. apply Hx. now right.
Qed.

Lemma loadChatFiles_NoDup (files : list Selection.FileUpload) :
  NoDup (map Selection.id files) -> NoDup (Selection.loadChatFiles files).
Proof.
  unfold Selection.loadChatFiles.
  induction files as [|file files IH]; cbn [map filter]; intros Hnd;
    [constructor|].
  apply NoDup_cons_iff in Hnd. destruct Hnd as [Hfresh Hnd].
  destruct (Selection.completed file); [|now apply IH].
  cbn [map]. apply NoDup_cons; [|now apply IH].
  intros Hin. apply Hfresh. apply in_map_iff in Hin.
  destruct Hin as [other [E Hother]]. apply filter_In in Hother.
  rewrite <- E. apply in_map. apply Hother.
Qed.

(** X9. The selection never holds an identifier twice: when the file
    lists the server returns have distinct identifiers, every event keeps a
    duplicate-free selection duplicate-free, so a run of events from the
    empty selection sends no identifier twice. *)
Theorem selection_has_no_duplicates
    (events : list Selection.Event) :
  Forall (fun e => match e with
                   | Selection.ChatFilesLoaded files =>
                       NoDup (map Selection.id files)
                   | _ => True
                   end) events ->
  NoDup (Selection.run events []).
Proof.
  intros H. unfold Selection.run.
  assert (G : forall sel, NoDup sel ->
            NoDup (fold_left (fun s e => Selection.step e s) events sel)).
  { induction H as [|e events He Hes IH]; intros sel Hsel; [exact Hsel|].
    cbn [fold_left]. apply IH.
    assert (T : forall f, NoDup (Selection.handleFileSelect f sel)).
    { intros f. unfold Selection.handleFileSelect.
      destruct (Selection.includes sel f) eqn:E.
      - now apply NoDup_filter.
      - apply NoDup_snoc; [exact Hsel|]. now apply includes_false. }
    destruct e as [files| | | | |file|fileId ingest]; cbn [Selection.step];
      try constructor; try assumption; try apply T.
    - now apply loadChatFiles_NoDup.
    - destruct (Selection.completed file); [apply T|exact Hsel]. }
  apply G. constructor.
Qed.

End SelectionMore.

(* ===================================================================== *)
(** * The upload: what is called, and when the file is reported          *)
(* ===================================================================== *)

Section UploadFacts.

Import AdminFiles Upload.




End UploadFacts.

(* ===================================================================== *)
(** * The uploaded file is selected unchecked                            *)
(* ===================================================================== *)

Section UncheckedUpload.
Context {R : Runtime}.

Import AdminFiles.

(** C6 on the client does not hold of the code. An identifier enters the
    selection only if its file was shown as completed, or as the uploaded
    file, whose status nothing looks at. At the upload of
    [MoreSamples.picked] over [MoreSamples.net_ingest_failed], where all
    three requests are answered ok and the ingestion reports ['failed'],
    FileUpload calls [onFileUploaded('f9')], ChatInterface's handler
    selects [f9], and a send from there posts [file_ids = ['f9']]: the
    generator runs on the answer to that request. The two other ways into
    the selection do check: a reload of the chat's files that lists [f9] as
    failed drops it, and a click on its row does nothing; but the
    selection holds [f9] until such a reload succeeds. *)
Theorem failed_upload_is_selected_and_sent
    (fetch : Api.Request -> Api.FetchResult) (clock : Chat.Clock)
    (st : Chat.State) (e : Selection.Event) (selected : list jsstring)
    (x : jsstring) :
  let net := MoreSamples.net_ingest_failed in
  let uploaded :=
    Selection.FileUploaded (str "f9") MoreSamples.ingest_failed in
  let props :=
    {| Chat.chatId := str "c1"; Chat.userId := str "u1";
       Chat.selectedFiles := Selection.run [uploaded] [] |} in
  let request :=
    {| Api.req_chatId := str "c1"; Api.req_message := Chat.input st;
       Api.req_user_id := str "u1"; Api.req_file_ids := [str "f9"];
       Api.req_stream := true |} in
  (In x (Selection.step e selected) ->
   In x selected \/ In x (Selection.shown_completed e)
   \/ In x (Selection.unchecked_upload e)) /\
  Rest.ingestFile net (str "f9") (str "u1")
  = Resolves MoreSamples.ingest_failed /\
  Selection.ingest_completed MoreSamples.ingest_failed = false /\
  In (Upload.OnFileUploaded (str "f9"))
     (Upload.handleFileSelect net MoreSamples.upload_props
        (Some MoreSamples.picked)) /\
  Selection.run [uploaded] [] = [str "f9"] /\
  Selection.shown_completed uploaded = [] /\
  Selection.run [uploaded; Selection.ChatFilesFailed] [] = [str "f9"] /\
  Selection.run
    [uploaded; Selection.ChatFilesLoaded [MoreSamples.listed_f9]] [] = [] /\
  Selection.step (Selection.FileListClick MoreSamples.listed_f9) [] = [] /\
  (is_empty (trim (Chat.input st)) || Chat.isStreaming st = false ->
   snd (Chat.handleSend fetch props clock st)
   = Some (Api.streamChatMessage (fun _ => fetch request) (str "c1")
             (Chat.input st) (str "u1") [str "f9"])).
Proof.
  cbn zeta. split; [apply step_sources|].
  repeat (split; [reflexivity|]).
  split.
  { vm_compute. do 9 right. now left. }
  repeat (split; [reflexivity|]).
  intros G. apply orb_false_elim in G. destruct G as [Hin Hst].
  rewrite handleSend_sent by assumption. cbn [snd].
  reflexivity.
Qed.

End UncheckedUpload.

(* ===================================================================== *)
(** * The chat list: the open chat and deletions                         *)
(* ===================================================================== *)

Section PageFacts.

Import AdminFiles Page.

Lemma other_than_In (chatId : jsstring) (l : list Chat) (c : Chat) :
  In c (filter (other_than chatId) l) <-> In c l /\ id c <> chatId.
Proof.
  rewrite filter_In. unfold other_than. split; intros [H1 H2];
    split; try assumption.
  - intros E. rewrite E, streq_refl in H2. discriminate.
  - destruct (streq (id c) chatId) eqn:E; [|reflexivity].
    apply streq_true_iff in E. contradiction.
Qed.

Lemma head_listed (l : list Chat) :
  match l with
  | first :: _ => In (id first) (map id l)
  | [] => True
  end.
Proof. destruct l; [exact I|now left]. Qed.

(** X12. The open chat stays one of the listed chats: loading a list
    that is not empty, creating a chat, opening a listed chat, a cancelled
    or failed deletion, and an accepted deletion that finds the page
    undisturbed (the open chat is the one its handler saw, and the chats
    its handler saw are still listed) all keep it so. *)
Theorem open_chat_stays_listed (e : Event) (st : State) :
  open_chat_listed st -> expected e st -> open_chat_listed (step e st).
Proof.
  intros Hinv Hexp. unfold open_chat_listed in *.
  destruct e as [[l|err]|[c|err]|seen chatId confirmed [[]|err]|chat];
    unfold step, loadChats, handleNewChat, handleDeleteChat;
    try exact Hinv.
  - destruct l as [|first l]; cbn [currentChatId chats].
    + cbn [expected] in Hexp. now rewrite Hexp.
    + now left.
  - cbn [currentChatId chats map]. now left.
  - destruct confirmed; cbn [negb]; [|exact Hinv].
    cbn [expected] in Hexp. destruct Hexp as [Hcur Hincl].
    destruct (is_current seen chatId) eqn:Ec; cbn [currentChatId chats].
    + destruct (filter (other_than chatId) (seen_chats seen))
        as [|first rest] eqn:Ef; [exact I|].
      assert (Hf : In first (filter (other_than chatId) (seen_chats seen)))
        by (rewrite Ef; now left).
      apply other_than_In in Hf. destruct Hf as [Hseen Hne].
      apply (in_map id) in Hseen. apply Hincl in Hseen.
      apply in_map_iff in Hseen. destruct Hseen as [x [Hx Hin]].
      apply in_map_iff. exists x. split; [exact Hx|].
      apply other_than_In. split; [exact Hin|]. now rewrite Hx.
    + destruct (currentChatId st) as [c|] eqn:Ecur; [|exact I].
      unfold is_current in Ec. rewrite Hcur in Ec.
      apply in_map_iff in Hinv. destruct Hinv as [x [Hx Hin]].
      apply in_map_iff. exists x. split; [exact Hx|].
      apply other_than_In. split; [exact Hin|]. rewrite Hx.
      intros E. subst. now rewrite streq_refl in Ec.
  - destruct confirmed; exact Hinv.
  - cbn [currentChatId chats]. cbn [expected] in Hexp. now apply in_map.
Qed.

(** X13. After a confirmed deletion that the server accepted the chat is
    no longer listed, and every other chat is, in the same order. What is
    open afterwards goes by the render that made the handler: when the
    chat was open in it, the page moves to the first other chat of that
    render (or to none) and empties the selection of files; when it was
    not, the open chat and the selection stay as they are, so that a chat
    opened while its deletion was in flight ends open and unlisted. A
    cancelled or failed deletion changes nothing. *)
Theorem deleted_chat_is_unlisted
    (seen : Render) (chatId : jsstring) (confirmed : bool)
    (result : Await unit) (st : State) :
  let st' := handleDeleteChat seen chatId confirmed result st in
  (confirmed = true -> result = Resolves tt ->
   chats st' = filter (other_than chatId) (chats st) /\
   ~ In chatId (map id (chats st')) /\
   (forall c, In c (chats st) -> id c <> chatId -> In c (chats st')) /\
   (seen_currentChatId seen = Some chatId ->
    currentChatId st'
    = match filter (other_than chatId) (seen_chats seen) with
      | first :: _ => Some (id first)
      | [] => None
      end /\
    currentChatId st' <> Some chatId /\ selectedFiles st' = []) /\
   (seen_currentChatId seen <> Some chatId ->
    currentChatId st' = currentChatId st /\
    selectedFiles st' = selectedFiles st /\
    (currentChatId st = Some chatId -> ~ open_chat_listed st'))) /\
  ((confirmed = false \/ exists err, result = Rejects err) -> st' = st).
Proof.
  cbn zeta. split.
  - intros -> ->. unfold handleDeleteChat. cbn [negb].
    assert (Hgone : ~ In chatId
                      (map id (filter (other_than chatId) (chats st)))).
    { intros H. apply in_map_iff in H. destruct H as [c [E Hc]].
      apply other_than_In in Hc. now destruct Hc. }
    assert (Hrest : forall c, In c (chats st) -> id c <> chatId ->
                      In c (filter (other_than chatId) (chats st))).
    { intros c H1 H2. now apply other_than_In. }
    split; [|split; [|split]].
    { now destruct (is_current seen chatId). }
    { now destruct (is_current seen chatId). }
    { now destruct (is_current seen chatId). }
    unfold is_current. split.
    + intros Ecur. rewrite Ecur, streq_refl.
      cbn [chats currentChatId selectedFiles].
      split; [reflexivity|]. split; [|reflexivity].
      destruct (filter (other_than chatId) (seen_chats seen))
        as [|first rest] eqn:Ef; [discriminate|].
      assert (Hf : In first (filter (other_than chatId) (seen_chats seen)))
        by (rewrite Ef; now left).
      apply other_than_In in Hf. destruct Hf as [_ Hne].
      intros E. inversion E. contradiction.
    + intros Hne.
      assert (Ec : match seen_currentChatId seen with
                   | Some c => streq c chatId
                   | None => false
                   end = false).
      { destruct (seen_currentChatId seen) as [c|]; [|reflexivity].
        destruct (streq c chatId) eqn:Ec; [|reflexivity].
        apply streq_true_iff in Ec. now subst. }
      rewrite Ec. cbn [chats currentChatId selectedFiles].
      split; [reflexivity|]. split; [reflexivity|].
      intros Hopen. unfold open_chat_listed.
      cbn [currentChatId chats]. rewrite Hopen. exact Hgone.
  - intros [->|[err ->]]; unfold handleDeleteChat; [reflexivity|].
    now destruct confirmed.
Qed.

End PageFacts.

(* ===================================================================== *)
(** * More on the schema: who may write what, cascades, constraints      *)
(* ===================================================================== *)

Section SchemaMore.

Import Db.

Lemma existsb_false {A} (p : A -> bool) (l : list A) :
  (forall x, p x = false) -> existsb p l = false.
Proof.
  intros H. induction l as [|x l IH]; [reflexivity|].
  cbn [existsb]. now rewrite H, IH.
Qed.

(** Nothing passes for an anonymous session. *)
Lemma anonymous_refused (db : Database) (t : Table) (c : Command)
    (r : RowView) :
  permits db Anonymous t c r = false.
Proof.
  unfold permits.
  destruct t, c; cbn; try reflexivity;
    try (destruct (row_user_id r); reflexivity);
    rewrite existsb_false; try reflexivity; intros x; apply andb_false_r.
Qed.

Lemma chat_owned_iff (db : Database) (u : uuid) (chat : uuid) :
  existsb (fun c => (chats_id c =? chat)%N && (chats_user_id c =? u)%N)
          (chats db) = true
  <-> exists c, In c (chats db) /\ chats_id c = chat /\ chats_user_id c = u.
Proof.
  rewrite existsb_exists. split; intros [c [Hc H]]; exists c.
  - apply andb_prop in H. destruct H as [H1 H2].
    apply N.eqb_eq in H1, H2. now repeat split.
  - destruct H as [H1 H2]. split; [exact Hc|].
    apply andb_true_intro. split; now apply N.eqb_eq.
Qed.

Lemma file_owned_iff (db : Database) (u : uuid) (file : uuid) :
  existsb (fun f => (files_id f =? file)%N && (files_user_id f =? u)%N)
          (files db) = true
  <-> exists f, In f (files db) /\ files_id f = file /\ files_user_id f = u.
Proof.
  rewrite existsb_exists. split; intros [f [Hf H]]; exists f.
  - apply andb_prop in H. destruct H as [H1 H2].
    apply N.eqb_eq in H1, H2. now repeat split.
  - destruct H as [H1 H2]. split; [exact Hf|].
    apply andb_true_intro. split; now apply N.eqb_eq.
Qed.

Lemma checked_some (db db' : Database) :
  checked db = Some db' -> db' = db /\ constraints_ok db = true.
Proof. unfold checked. destruct (constraints_ok db); intros H; now inversion H. Qed.

(** X14. Nobody writes in another user's name, and nobody writes without
    being signed in: an anonymous session is refused every command on
    every row of every table; a signed-in client's INSERT goes through
    only for a chat or a file whose [user_id] is its own, for a message in
    a chat it owns, and for a chunk of a file it owns. *)
Theorem inserts_are_for_own_rows
    (db db' : Database) (u : uuid) (t : Table) (c : Command) (v : RowView)
    (chat : chats_row) (message : messages_row) (file : files_row)
    (chunk : file_chunks_row) :
  permits db Anonymous t c v = false /\
  (exec (Authenticated u) (InsertChat chat) db = Some db' ->
   chats_user_id chat = u) /\
  (exec (Authenticated u) (InsertFile file) db = Some db' ->
   files_user_id file = u) /\
  (exec (Authenticated u) (InsertMessage message) db = Some db' ->
   exists c, In c (chats db) /\ chats_id c = messages_chat_id message
             /\ chats_user_id c = u) /\
  (exec (Authenticated u) (InsertChunk chunk) db = Some db' ->
   exists f, In f (files db) /\ files_id f = file_chunks_file_id chunk
             /\ files_user_id f = u).
Proof.
  split; [apply anonymous_refused|].
  repeat split; cbn [exec]; unfold permits; cbn;
    rewrite orb_false_r; intros H.
  - destruct (u =? chats_user_id chat)%N eqn:E; [|discriminate].
    symmetry. now apply N.eqb_eq.
  - destruct (u =? files_user_id file)%N eqn:E; [|discriminate].
    symmetry. now apply N.eqb_eq.
  - destruct (existsb _ (chats db)) eqn:E; [|discriminate].
    now apply chat_owned_iff in E.
  - destruct (existsb _ (files db)) eqn:E; [|discriminate].
    now apply file_owned_iff in E.
Qed.

Lemma update_rows_keeps {A} (target : A -> bool) (set : A -> A)
    (rows : list A) (r : A) :
  target r = false -> In r rows -> In r (update_rows target set rows).
Proof.
  intros Ht Hr. unfold update_rows. apply in_map_iff. exists r.
  now rewrite Ht.
Qed.

Lemma own_chat_only (db : Database) (who : Session) (c : Command)
    (r : chats_row) :
  bypasses_rls who = false ->
  Some (chats_user_id r) <> auth_uid who ->
  permits db who t_chats c (view_chat r) = false.
Proof.
  intros Hw Hne. destruct who as [u| |]; [|apply anonymous_refused|discriminate].
  cbn [auth_uid] in Hne. unfold permits.
  destruct c; cbn; try reflexivity; rewrite orb_false_r;
    apply N.eqb_neq; intros E; apply Hne; now rewrite E.
Qed.

Lemma own_file_only (db : Database) (who : Session) (c : Command)
    (r : files_row) :
  bypasses_rls who = false ->
  Some (files_user_id r) <> auth_uid who ->
  permits db who t_files c (view_file r) = false.
Proof.
  intros Hw Hne. destruct who as [u| |]; [|apply anonymous_refused|discriminate].
  cbn [auth_uid] in Hne. unfold permits.
  destruct c; cbn; try reflexivity; rewrite orb_false_r;
    apply N.eqb_neq; intros E; apply Hne; now rewrite E.
Qed.

(** X15. A client cannot change or remove what belongs to someone else:
    whatever statement a session subject to row level security runs, every
    chat and every file whose [user_id] is not the session's own is in the
    database afterwards, row for row as it was. *)
Theorem other_users_rows_are_untouched
    (who : Session) (st : Statement) (db : Database)
    (chat : chats_row) (file : files_row) :
  bypasses_rls who = false ->
  (In chat (chats db) -> Some (chats_user_id chat) <> auth_uid who ->
   In chat (chats (apply who st db))) /\
  (In file (files db) -> Some (files_user_id file) <> auth_uid who ->
   In file (files (apply who st db))).
Proof.
  intros Hw. unfold apply.
  destruct (exec who st db) as [db'|] eqn:E; [|now split].
  destruct st; cbn [exec] in E;
    try (match type of E with
         | (if ?b then _ else _) = _ => destruct b; [|discriminate]
         end;
         apply checked_eq in E; subst db';
         cbn [chats files with_chats with_files with_file_chunks
              with_messages]).
  - split; [|tauto]. intros H _. apply in_or_app. now left.
  - split; [|tauto]. intros H Hne. apply update_rows_keeps; [|exact H].
    rewrite (own_chat_only db who UPDATE chat Hw Hne). apply andb_false_r.
  - unfold delete_chats, referential_delete in E.
    cbn [fk_on_delete messages_chat_id_fkey files_chat_id_fkey] in E.
    rewrite filter_none in E by
      (intros r; rewrite chats_delete_refused by exact Hw;
       apply andb_false_r).
    unfold delete_files, referential_delete in E.
    cbn [fk_on_delete file_chunks_file_id_fkey] in E.
    inversion E; subst; clear E. cbn [chats files map].
    split; intros H _.
    + rewrite filter_all; [exact H|].
      intros r. rewrite chats_delete_refused by exact Hw.
      now rewrite andb_false_r.
    + rewrite filter_all; [exact H|].
      intros r. unfold refers_to_chat. now destruct (files_chat_id r).
  - tauto.
  - tauto.
  - inversion E; subst. cbn [chats files with_messages]. tauto.
  - split; [tauto|]. intros H _. apply in_or_app. now left.
  - split; [tauto|]. intros H Hne. apply update_rows_keeps; [|exact H].
    rewrite (own_file_only db who UPDATE file Hw Hne). apply andb_false_r.
  - unfold delete_files, referential_delete in E.
    cbn [fk_on_delete file_chunks_file_id_fkey] in E.
    inversion E; subst; clear E. cbn [chats files].
    split; [tauto|]. intros H Hne. apply filter_In. split; [exact H|].
    rewrite (own_file_only db who DELETE file Hw Hne).
    now rewrite andb_false_r.
  - tauto.
  - tauto.
  - inversion E; subst. cbn [chats files with_file_chunks]. tauto.
Qed.

(** X16. Deleting a chat takes its messages, its files and their chunks
    with it: the statement always goes through, and for a chat row that is
    gone afterwards no message and no file refers to its identifier any
    more, and no chunk is left of a file that referred to it. *)
Theorem chat_deletion_cascades
    (who : Session) (where_ : chats_row -> bool) (db : Database)
    (chat : chats_row) :
  let db' := apply who (DeleteChats where_) db in
  exec who (DeleteChats where_) db <> None /\
  (In chat (chats db) -> ~ In chat (chats db') ->
   (forall m, In m (messages db') -> messages_chat_id m <> chats_id chat) /\
   (forall f, In f (files db') -> files_chat_id f <> Some (chats_id chat)) /\
   (forall f c, In f (files db) -> files_chat_id f = Some (chats_id chat) ->
                In c (file_chunks db') ->
                file_chunks_file_id c <> files_id f)).
Proof.
  cbn zeta. unfold apply. cbn [exec].
  unfold delete_chats, delete_files, referential_delete.
  cbn [fk_on_delete messages_chat_id_fkey files_chat_id_fkey
       file_chunks_file_id_fkey].
  split; [discriminate|]. cbn [chats messages files file_chunks].
  set (doomed := fun r => where_ r && permits db who t_chats DELETE (view_chat r)).
  set (gone := map chats_id (filter doomed (chats db))).
  intros Hin Hgone.
  assert (Hd : doomed chat = true).
  { apply not_false_is_true. intros Ed. apply Hgone.
    apply filter_In. split; [exact Hin|].
    change (negb (doomed chat) = true). now rewrite Ed. }
  assert (Hmem : mem (chats_id chat) gone = true).
  { apply mem_In. unfold gone. apply in_map. apply filter_In. now split. }
  repeat split.
  - intros m Hm E. apply filter_In in Hm. destruct Hm as [_ Hm].
    rewrite E, Hmem in Hm. discriminate.
  - intros f Hf E. apply filter_In in Hf. destruct Hf as [_ Hf].
    unfold refers_to_chat in Hf. rewrite E, Hmem in Hf. discriminate.
  - intros f c Hf E Hc Ec. apply filter_In in Hc. destruct Hc as [_ Hc].
    apply negb_true_iff in Hc.
    assert (mem (file_chunks_file_id c)
              (map files_id (filter (refers_to_chat gone) (files db)))
            = true) as Hm.
    { apply mem_In. rewrite Ec. apply in_map. apply filter_In.
      split; [exact Hf|]. unfold refers_to_chat. now rewrite E. }
    congruence.
Qed.

End SchemaMore.

(* ===================================================================== *)
(** * The constraints hold in every database that can be reached         *)
(* ===================================================================== *)

Section Constraints.

Import Db.

Lemma forallb_filter {A} (q p : A -> bool) (l : list A) :
  forallb q l = true -> forallb q (filter p l) = true.
Proof.
  rewrite !forallb_forall. intros H x Hx. apply H.
  apply filter_In in Hx. now destruct Hx.
Qed.

Lemma unique_filter {A} (key : A -> uuid) (p : A -> bool) (l : list A) :
  unique (map key l) = true -> unique (map key (filter p l)) = true.
Proof.
  induction l as [|x l IH]; [reflexivity|]. cbn [map unique filter].
  intros H. apply andb_prop in H. destruct H as [Hx Hl].
  destruct (p x); [|now apply IH]. cbn [map unique].
  rewrite IH by exact Hl. rewrite andb_true_r.
  apply negb_true_iff in Hx. apply negb_true_iff.
  destruct (mem (key x) (map key (filter p l))) eqn:E; [|reflexivity].
  apply mem_In, in_map_iff in E. destruct E as [y [Ey Hy]].
  apply filter_In in Hy. destruct Hy as [Hy _].
  assert (mem (key x) (map key l) = true) as Hm.
  { apply mem_In. rewrite <- Ey. now apply in_map. }
  congruence.
Qed.

(** A row that is referred to and whose key is not among the deleted keys
    is still there. *)
Lemma survives {A} (key : A -> uuid) (doomed : A -> bool) (l : list A)
    (x : uuid) :
  mem x (map key l) = true ->
  mem x (map key (filter doomed l)) = false ->
  mem x (map key (filter (fun r => negb (doomed r)) l)) = true.
Proof.
  intros Hin Hgone. apply mem_In, in_map_iff in Hin.
  destruct Hin as [r [Er Hr]]. apply mem_In, in_map_iff. exists r.
  split; [exact Er|]. apply filter_In. split; [exact Hr|].
  destruct (doomed r) eqn:Ed; [|reflexivity]. exfalso.
  assert (mem x (map key (filter doomed l)) = true) as Hm.
  { apply mem_In. rewrite <- Er. apply in_map. apply filter_In. now split. }
  congruence.
Qed.

Lemma chunks_have_files_fk_ok (db : Database) :
  chunks_have_files db -> file_chunks_fk_ok db = true.
Proof.
  intros H. unfold file_chunks_fk_ok, file_exists. apply forallb_forall.
  intros c Hc. destruct (H c Hc) as [f [Hf E]]. apply mem_In.
  rewrite <- E. now apply in_map.
Qed.

Lemma constraints_ok_iff (db : Database) :
  constraints_ok db = true <->
  unique (map chats_id (chats db)) = true /\
  unique (map messages_id (messages db)) = true /\
  unique (map files_id (files db)) = true /\
  unique (map file_chunks_id (file_chunks db)) = true /\
  messages_fk_ok db = true /\ files_fk_ok db = true /\
  file_chunks_fk_ok db = true /\
  forallb messages_role_check (messages db) = true /\
  forallb files_status_check (files db) = true.
Proof.
  unfold constraints_ok. rewrite !andb_true_iff. tauto.
Qed.

Lemma delete_files_constraints (doomed : files_row -> bool)
    (db db' : Database) :
  constraints_ok db = true -> delete_files doomed db = Some db' ->
  constraints_ok db' = true.
Proof.
  intros Hok Hd. apply constraints_ok_iff in Hok.
  destruct Hok as (U1 & U2 & U3 & U4 & F1 & F2 & F3 & C1 & C2).
  pose proof (delete_files_chunks_have_files doomed db db'
                (fk_ok_chunks_have_files db F3) Hd) as Hchunks.
  apply chunks_have_files_fk_ok in Hchunks.
  unfold delete_files, referential_delete in Hd.
  cbn [fk_on_delete file_chunks_file_id_fkey] in Hd.
  inversion Hd; subst; clear Hd. apply constraints_ok_iff.
  cbn [chats messages files file_chunks].
  repeat split; try assumption.
  - now apply unique_filter.
  - now apply unique_filter.
  - unfold files_fk_ok, chat_exists in *. cbn [chats files].
    now apply forallb_filter.
  - now apply forallb_filter.
Qed.

Lemma delete_chats_constraints (doomed : chats_row -> bool)
    (db db' : Database) :
  constraints_ok db = true -> delete_chats doomed db = Some db' ->
  constraints_ok db' = true.
Proof.
  intros Hok Hd. unfold delete_chats, referential_delete in Hd.
  cbn [fk_on_delete messages_chat_id_fkey files_chat_id_fkey] in Hd.
  destruct (delete_files _ db) as [db1|] eqn:E1; [|discriminate].
  pose proof (delete_files_constraints _ db db1 Hok E1) as Hok1.
  apply constraints_ok_iff in Hok1.
  destruct Hok1 as (_ & _ & U3 & U4 & _ & _ & F3 & _ & C2).
  apply constraints_ok_iff in Hok.
  destruct Hok as (U1 & U2 & _ & _ & F1 & F2 & _ & C1 & _).
  assert (Hfiles : files db1
                   = filter (fun f => negb (refers_to_chat
                        (map chats_id (filter doomed (chats db))) f))
                       (files db)).
  { unfold delete_files, referential_delete in E1.
    cbn [fk_on_delete file_chunks_file_id_fkey] in E1.
    now inversion E1. }
  inversion Hd; subst; clear Hd. apply constraints_ok_iff.
  cbn [chats messages files file_chunks].
  repeat split; try assumption.
  - now apply unique_filter.
  - now apply unique_filter.
  - unfold messages_fk_ok, chat_exists in *. cbn [chats messages].
    apply forallb_forall. intros m Hm. apply filter_In in Hm.
    destruct Hm as [Hm Hg]. apply negb_true_iff in Hg.
    rewrite forallb_forall in F1. now apply survives; [apply F1|].
  - unfold files_fk_ok, chat_exists in *. cbn [chats files].
    rewrite Hfiles. apply forallb_forall. intros f Hf.
    apply filter_In in Hf. destruct Hf as [Hf Hg].
    apply negb_true_iff in Hg. unfold refers_to_chat in Hg.
    rewrite forallb_forall in F2. specialize (F2 f Hf).
    destruct (files_chat_id f) as [c|]; [|reflexivity].
    now apply survives.
  - now apply forallb_filter.
Qed.

Lemma apply_constraints (who : Session) (st : Statement) (db : Database) :
  constraints_ok db = true -> constraints_ok (apply who st db) = true.
Proof.
  intros Hok. unfold apply.
  destruct (exec who st db) as [db'|] eqn:E; [|exact Hok].
  destruct st; cbn [exec] in E;
    try (match type of E with
         | (if ?b then _ else _) = _ => destruct b; [|discriminate]
         end;
         apply checked_some in E; destruct E as [-> E]; exact E).
  - now apply delete_chats_constraints in E.
  - inversion E; subst; clear E. apply constraints_ok_iff in Hok.
    destruct Hok as (U1 & U2 & U3 & U4 & F1 & F2 & F3 & C1 & C2).
    apply constraints_ok_iff. cbn [chats messages files file_chunks
      with_messages].
    repeat split; try assumption.
    + now apply unique_filter.
    + unfold messages_fk_ok, chat_exists in *. cbn [chats messages].
      now apply forallb_filter.
    + now apply forallb_filter.
  - now apply delete_files_constraints in E.
  - inversion E; subst; clear E. apply constraints_ok_iff in Hok.
    destruct Hok as (U1 & U2 & U3 & U4 & F1 & F2 & F3 & C1 & C2).
    apply constraints_ok_iff. cbn [chats messages files file_chunks
      with_file_chunks].
    repeat split; try assumption.
    + now apply unique_filter.
    + unfold file_chunks_fk_ok, file_exists in *. cbn [files file_chunks].
      now apply forallb_filter.
Qed.

(** X17. The constraints of the schema hold in every database reached
    from the empty one, whoever ran the statements: identifiers are unique
    in each table, every message and every file with a chat refers to a
    chat that exists, every chunk to a file that exists, every message
    has one of the three roles and every file one of the four statuses
    (or none). *)
Theorem reachable_databases_are_consistent
    (script : list (Session * Statement)) (m : messages_row)
    (f : files_row) :
  let db := run script empty in
  constraints_ok db = true /\
  NoDup (map messages_id (messages db)) /\
  (In m (messages db) ->
   In (messages_chat_id m) (map chats_id (chats db)) /\
   In (messages_role m) ["user"; "assistant"; "system"]%string) /\
  (In f (files db) ->
   forall s, files_status f = Some s ->
             In s ["pending"; "processing"; "completed"; "failed"]%string).
Proof.
  cbn zeta.
  assert (Hok : constraints_ok (run script empty) = true).
  { unfold run. generalize empty (eq_refl : constraints_ok empty = true).
    induction script as [|[who st] script IH]; intros db H; [exact H|].
    cbn [fold_left fst snd]. apply IH. now apply apply_constraints. }
  split; [exact Hok|]. apply constraints_ok_iff in Hok.
  destruct Hok as (U1 & U2 & U3 & U4 & F1 & F2 & F3 & C1 & C2).
  split; [|split].
  - clear - U2. induction (map messages_id (messages (run script empty)))
      as [|x l IH]; [constructor|].
    cbn [unique] in U2. apply andb_prop in U2. destruct U2 as [Hx Hl].
    constructor; [|now apply IH]. intros Hin. apply mem_In in Hin.
    rewrite Hin in Hx. discriminate.
  - intros Hm. unfold messages_fk_ok, chat_exists in F1.
    rewrite forallb_forall in F1, C1. split.
    + apply mem_In. now apply F1.
    + specialize (C1 m Hm). unfold messages_role_check, one_of in C1.
      apply existsb_exists in C1. destruct C1 as [s [Hs E]].
      apply String.eqb_eq in E. now subst.
  - intros Hf s Hs. rewrite forallb_forall in C2. specialize (C2 f Hf).
    unfold files_status_check in C2. rewrite Hs in C2. unfold one_of in C2.
    apply existsb_exists in C2. destruct C2 as [s' [Hs' E]].
    apply String.eqb_eq in E. now subst.
Qed.

End Constraints.

(* ===================================================================== *)
(** * The token the admin route verifies                                 *)
(* ===================================================================== *)

Section TokenFacts.

Import AdminFiles.

Lemma replace_unfold (pat by_ s : jsstring) :
  replace pat by_ s
  = if startsWith s pat then by_ ++ skipn (List.length pat) s
    else match s with
         | [] => []
         | c :: s' => c :: replace pat by_ s'
         end.
Proof. destruct s; reflexivity. Qed.

Lemma startsWith_app (p t : jsstring) : startsWith (p ++ t) p = true.
Proof.
  induction p as [|c p IH]; [now destruct t|].
  cbn [app startsWith]. now rewrite N.eqb_refl, IH.
Qed.

Lemma skipn_prefix (p t : jsstring) : skipn (List.length p) (p ++ t) = t.
Proof. induction p as [|c p IH]; [reflexivity|exact IH]. Qed.

Lemma replace_prefix (pat by_ t : jsstring) :
  replace pat by_ (pat ++ t) = by_ ++ t.
Proof. now rewrite replace_unfold, startsWith_app, skipn_prefix. Qed.

Lemma replace_absent (pat by_ s : jsstring) :
  Header.includes s pat = false -> replace pat by_ s = s.
Proof.
  induction s as [|c s IH]; intros H; rewrite replace_unfold;
    cbn [Header.includes] in H; apply orb_false_elim in H;
    destruct H as [H1 H2]; rewrite H1; [reflexivity|].
  now rewrite IH.
Qed.

(** X18. The route verifies the header with its first ['Bearer ']
    removed, so the scheme is optional: a header that is the bare token
    gets the same answer as ['Bearer '] followed by that token. *)
Theorem bearer_prefix_is_optional
    (supabase : Supabase) (token : jsstring) :
  token <> [] ->
  Header.includes token Header.bearer = false ->
  GET supabase {| authorization := Some token |}
  = GET supabase {| authorization := Some (Header.bearer ++ token) |}.
Proof.
  intros Hne Hno. unfold GET. cbn [authorization].
  destruct token as [|c t]; [contradiction|].
  change (str "Bearer ") with Header.bearer.
  rewrite replace_prefix, replace_absent by exact Hno. reflexivity.
Qed.

End TokenFacts.

(* ===================================================================== *)
(** * The further theorems at sample inputs                              *)
(* ===================================================================== *)

(** X2 at a body whose second frame is cut before its line feed. *)
Lemma unterminated_tail_witness :
  Api.yields
    (Api.streamChatMessage (R := Sample.runtime)
       (Api.answering
          (Api.streaming ([MoreSamples.first_read] ++ [MoreSamples.cut_read])
             Api.Closed)) [] [] [] [])
  = [str "Hel"].
Proof.
  rewrite (proj1 (unterminated_tail_is_dropped (R := Sample.runtime)
                    [] [] [] [] [MoreSamples.first_read]
                    MoreSamples.cut_read Api.Closed
                    ltac:(vm_compute; intros H;
                          repeat (destruct H as [H|H]; [discriminate H|]);
                          exact H))).
  vm_compute. reflexivity.
Defined.

(** X5 at a comment line between two frames. *)
Lemma silent_line_witness :
  Lines.silent (R := Sample.runtime) MoreSamples.comment_line /\
  Gen.for_of
    ([MoreSamples.content_line] ++ MoreSamples.comment_line
       :: [MoreSamples.content_line])
    (Api.process_line (R := Sample.runtime))
  = Gen.for_of ([MoreSamples.content_line] ++ [MoreSamples.content_line])
      (Api.process_line (R := Sample.runtime)).
Proof.
  assert (H : Lines.silent (R := Sample.runtime) MoreSamples.comment_line)
    by (left; reflexivity).
  split; [exact H|].
  apply (silent_lines_are_skipped (R := Sample.runtime)
           [MoreSamples.content_line] [MoreSamples.content_line]
           MoreSamples.comment_line H).
Defined.

(** X6 at a refused request. *)
Lemma handleSend_failure_witness :
  Chat.messages
    (fst (Chat.handleSend (R := Sample.runtime) Sample.fetch_refused
            Sample.props Sample.clock Sample.state))
  = [ {| Chat.id := str "1700000000000"; Chat.role := Chat.user;
         Chat.content := str "Hi"; Chat.timestamp := 1700000000000 |};
      {| Chat.id := str "1700000000002"; Chat.role := Chat.assistant;
         Chat.content := Chat.sorry; Chat.timestamp := 1700000000001 |} ].
Proof.
  rewrite (handleSend_failure_shows_apology (R := Sample.runtime)
             Sample.fetch_refused Sample.props Sample.clock Sample.state
             (Error (str "Failed to send message"))
             eq_refl eq_refl eq_refl).
  reflexivity.
Defined.

(** X9 at [MoreSamples.clicks]. *)
Lemma selection_no_duplicates_witness :
  NoDup (Selection.run MoreSamples.clicks []) /\
  Selection.run MoreSamples.clicks [] = [str "f9"; str "f1"].
Proof.
  split; [|reflexivity].
  apply (selection_has_no_duplicates MoreSamples.clicks).
  repeat constructor.
  - cbn. intros [H|[]]. discriminate H.
  - intros [].
Defined.

(** X12 at the deletion of the open chat. *)
Lemma open_chat_witness :
  Page.open_chat_listed MoreSamples.page /\
  Page.open_chat_listed (Page.step MoreSamples.delete_c1 MoreSamples.page) /\
  Page.currentChatId (Page.step MoreSamples.delete_c1 MoreSamples.page)
  = Some (str "c2").
Proof.
  assert (H : Page.open_chat_listed MoreSamples.page) by (now left).
  assert (U : Page.expected MoreSamples.delete_c1 MoreSamples.page)
    by (split; [reflexivity|apply incl_refl]).
  split; [exact H|]. split; [|reflexivity].
  apply (open_chat_stays_listed MoreSamples.delete_c1 MoreSamples.page H U).
Defined.

(** X13 where the second chat was opened while its deletion, asked for
    from the render of [MoreSamples.page], was in flight: it ends open and
    unlisted. *)
Lemma stale_deletion_witness :
  let st' :=
    Page.handleDeleteChat (Page.render MoreSamples.page) (str "c2") true
      (AdminFiles.Resolves tt) MoreSamples.page_on_c2 in
  Page.currentChatId st' = Some (str "c2") /\
  map Page.id (Page.chats st') = [str "c1"] /\
  ~ Page.open_chat_listed st'.
Proof.
  cbv zeta.
  destruct (deleted_chat_is_unlisted (Page.render MoreSamples.page)
              (str "c2") true (AdminFiles.Resolves tt)
              MoreSamples.page_on_c2) as [H _].
  destruct (H eq_refl eq_refl) as [_ [_ [_ [_ Hstale]]]].
  assert (Hne : Page.seen_currentChatId (Page.render MoreSamples.page)
                <> Some (str "c2")) by discriminate.
  destruct (Hstale Hne) as [Hcur [_ Hopen]].
  split; [exact Hcur|]. split; [reflexivity|]. exact (Hopen eq_refl).
Defined.

(** X15 at [Sample.database]: user 2 tries to delete and to rename the
    file of user 1. *)
Lemma other_users_rows_witness :
  In Sample.file1
    (Db.files (Db.apply (Db.Authenticated 2%N)
                 (Db.DeleteFiles (fun _ => true)) Sample.database)).
Proof.
  apply (proj2 (other_users_rows_are_untouched (Db.Authenticated 2%N)
                  (Db.DeleteFiles (fun _ => true)) Sample.database
                  {| Db.chats_id := 1%N; Db.chats_user_id := 1%N;
                     Db.chats_title := None |}
                  Sample.file1 eq_refl)).
  - now left.
  - discriminate.
Defined.

(** X18 at the token of [Sample.supabase]. *)
Lemma bearer_witness :
  AdminFiles.GET (Sample.supabase "admin")
    {| AdminFiles.authorization := Some (str "token-u1") |}
  = AdminFiles.GET (Sample.supabase "admin")
      {| AdminFiles.authorization := Some (str "Bearer token-u1") |}.
Proof.
  apply (bearer_prefix_is_optional (Sample.supabase "admin") (str "token-u1")).
  - discriminate.
  - reflexivity.
Defined.
